(** * Hierarchical arch obstacles and their container

    A shallow embedding of [nonlinear_avoidance/arch_obstacle.py]:
    the classes [MultiObstacleContainer] and [BlockArchObstacle], the
    directed graph ([networkx.DiGraph]) the tree keeps its parent links in,
    and the statements about them.

    Conventions.
    - Python exceptions are values of [exn]; a call that may raise returns
      an [outcome].  Methods that mutate [self] are state transformers that
      hand back the object as it is when the call ends, also when it ends
      by raising: Python does not roll anything back.
    - Floats are modelled by rationals ([Q]): every finite float is a
      rational and the comparisons agree.  Rounding, infinities and NaN are
      outside the model.
    - A numpy array of floats is a [list Q].
    - Node identifiers and indices are Python ints, so [Z]. *)

From Stdlib Require Import ZArith QArith Lia.
From stdpp Require Import base option list gmap.

Set Default Proof Using "Type".

(** ** Python outcomes *)

Inductive exn : Set :=
| ValueError          (* min of an empty sequence *)
| KeyError            (* dict lookup of a missing key *)
| IndexError          (* list index out of range *)
| NotImplementedError
| NetworkXError       (* node not in the digraph *)
| AttributeError.     (* a library call refusing its argument *)

Inductive outcome (A : Type) : Type :=
| Ret (a : A)
| Raise (e : exn).
Arguments Ret {A} a.
Arguments Raise {A} e.

Definition obind {A B} (x : outcome A) (k : A -> outcome B) : outcome B :=
  match x with
  | Ret a => k a
  | Raise e => Raise e
  end.

Definition returns {A} (x : outcome A) : bool :=
  match x with Ret _ => true | Raise _ => false end.

Definition raises {A} (x : outcome A) : bool := negb (returns x).

Abbreviation Array := (list Q).

(** [l[i]] on a Python list: a negative index counts from the end. *)
Definition py_getitem {A} (l : list A) (i : Z) : outcome A :=
  let n := Z.of_nat (length l) in
  let j := if (i <? 0)%Z then (n + i)%Z else i in
  if ((0 <=? j) && (j <? n))%Z then
    match l !! Z.to_nat j with
    | Some x => Ret x
    | None => Raise IndexError
    end
  else Raise IndexError.

(** The minimum of a non-empty sequence of floats; the first of several
    equal minima is kept, as the loop [if item < current] does. *)
Fixpoint min_from (current : Q) (items : list Q) : Q :=
  match items with
  | [] => current
  | item :: rest =>
      min_from (if Qle_bool current item then current else item) rest
  end.

(** Builtin [min(seq)] and [np.min(seq)]: both raise [ValueError] on an
    empty sequence. *)
Definition py_min (items : list Q) : outcome Q :=
  match items with
  | [] => Raise ValueError
  | item :: rest => Ret (min_from item rest)
  end.

(** ** The pose library ([vartools.states.Pose])

    The class is not part of this repository; the tree uses two of its
    entry points, so they are the interface. *)

Class PoseLibrary (Pose : Type) : Type := {
  (** [Pose(position, orientation=0.0)] *)
  Pose_unrotated : Array -> Pose;
  (** [self.transform_pose_from_relative(pose)]: the pose [pose], given
      relative to the frame [self], expressed in the frame [self] is given
      in.  A fresh pose; the argument is not changed. *)
  transform_pose_from_relative : Pose -> Pose -> Pose;
  (** The same method when [get_gamma] hands it a position array instead
      of a pose.  What the library does with an array is its own business,
      so the call may raise. *)
  transform_pose_from_relative_of_array : Pose -> Array -> outcome Array;
}.

(** ** Primitive shapes ([dynamic_obstacle_avoidance.obstacles]) *)

Module Obstacle.
Section Obstacle.
Context {Pose : Type}.

(** The attributes of a shape the tree reads or writes.  [shape] is the
    attribute [update_obstacles] assigns; it is absent ([None]) on a
    shape fresh from its constructor. *)
Record t : Type := mk {
  axes_length : Array;
  pose : Pose;
  shape : option Pose;
  reference_point : option Array;
}.

(** [Cuboid(axes_length=..., pose=...)] *)
Definition Cuboid (axes : Array) (p : Pose) : t :=
  {| axes_length := axes; pose := p; shape := None; reference_point := None |}.

(** [obstacle.pose = p] *)
Definition set_pose (p : Pose) (o : t) : t :=
  {| axes_length := axes_length o; pose := p; shape := shape o;
     reference_point := reference_point o |}.

(** [obstacle.shape = p] *)
Definition set_shape (p : Pose) (o : t) : t :=
  {| axes_length := axes_length o; pose := pose o; shape := Some p;
     reference_point := reference_point o |}.

(** [obstacle.set_reference_point(r, in_global_frame=False)] *)
Definition set_reference_point (r : Array) (o : t) : t :=
  {| axes_length := axes_length o; pose := pose o; shape := shape o;
     reference_point := Some r |}.
End Obstacle.
Arguments t : clear implicits.
End Obstacle.

(** ** Directed graphs ([networkx.DiGraph])

    The part of the class the tree uses.  As in the library a graph is three
    dictionaries keyed by node: the attribute dictionary of each node, its
    successors and its predecessors.  An adjacency dictionary is kept as the
    list of its keys in insertion order. *)

Module DiGraph.
Section DiGraph.
Context {Pose : Type}.

(** A node's attribute dictionary; [None] is a missing key. *)
Record attrs : Type := mk_attrs {
  local_reference : option Array;
  indeces_children : option (list Z);
  references_children : option (list Pose);
}.

Definition no_attrs : attrs :=
  {| local_reference := None; indeces_children := None;
     references_children := None |}.

(** [old.update(new)] *)
Definition attrs_update (new old : attrs) : attrs :=
  {| local_reference :=
       match local_reference new with
       | Some r => Some r | None => local_reference old end;
     indeces_children :=
       match indeces_children new with
       | Some c => Some c | None => indeces_children old end;
     references_children :=
       match references_children new with
       | Some c => Some c | None => references_children old end |}.

Record t : Type := mk {
  _node : gmap Z attrs;
  _succ : gmap Z (list Z);
  _pred : gmap Z (list Z);
}.

(** [nx.DiGraph()] *)
Definition empty : t := {| _node := ∅; _succ := ∅; _pred := ∅ |}.

(** [g.add_node(n, **new)]: a new node gets [new] as its attributes; on
    a node that is already there, only the attributes are updated. *)
Definition add_node (n : Z) (new : attrs) (g : t) : t :=
  match _succ g !! n with
  | None =>
      {| _node := <[n := new]> (_node g);
         _succ := <[n := []]> (_succ g);
         _pred := <[n := []]> (_pred g) |}
  | Some _ =>
      {| _node := alter (attrs_update new) n (_node g);
         _succ := _succ g;
         _pred := _pred g |}
  end.

(** [d[k] = {}] on an adjacency dictionary *)
Definition adj_set (k : Z) (keys : list Z) : list Z :=
  if decide (k ∈ keys) then keys else keys ++ [k].

(** [g.add_edge(u, v)] *)
Definition add_edge (u v : Z) (g : t) : t :=
  let g := match _succ g !! u with
           | None => add_node u no_attrs g | Some _ => g end in
  let g := match _succ g !! v with
           | None => add_node v no_attrs g | Some _ => g end in
  {| _node := _node g;
     _succ := alter (adj_set v) u (_succ g);
     _pred := alter (adj_set u) v (_pred g) |}.

(** [list(g.predecessors(n))] *)
Definition predecessors (n : Z) (g : t) : outcome (list Z) :=
  match _pred g !! n with
  | Some ps => Ret ps
  | None => Raise NetworkXError
  end.

(** [g.nodes[n]] *)
Definition nodes_getitem (n : Z) (g : t) : outcome attrs :=
  match _node g !! n with
  | Some a => Ret a
  | None => Raise KeyError
  end.

(** [g.nodes[n]["indeces_children"].append(c)] *)
Definition append_child (n c : Z) (g : t) : outcome t :=
  obind (nodes_getitem n g) (fun a =>
  match indeces_children a with
  | None => Raise KeyError
  | Some cs =>
      Ret {| _node :=
               <[n := {| local_reference := local_reference a;
                         indeces_children := Some (cs ++ [c]);
                         references_children := references_children a |}]>
                 (_node g);
             _succ := _succ g;
             _pred := _pred g |}
  end).

(** [n in g] *)
Definition has_node (n : Z) (g : t) : Prop := is_Some (_node g !! n).

(** [g.has_edge(u, v)] *)
Definition has_edge (u v : Z) (g : t) : Prop :=
  ∃ vs, _succ g !! u = Some vs ∧ v ∈ vs.

(** A walk of at least one edge. *)
Inductive walk (g : t) : Z -> Z -> Prop :=
| walk_edge u v : has_edge u v g -> walk g u v
| walk_step u v w : has_edge u v g -> walk g v w -> walk g u w.
End DiGraph.
Arguments attrs : clear implicits.
Arguments t : clear implicits.
End DiGraph.

(** ** The tree of shapes ([class BlockArchObstacle]) *)

Module BlockArchObstacle.
Section BlockArchObstacle.
Context {Pose : Type} `{!PoseLibrary Pose}.

(** [obs.get_gamma(position, in_global_frame=True)] of a member shape:
    the shape library's proximity function, read off the shape's
    geometry and its current attributes. *)
Variable obstacle_get_gamma : Obstacle.t Pose -> Array -> Q.

(** What happens when the interpreter runs [breakpoint()]: the hook
    returns (the debugger is left with "continue", or breakpoints are
    switched off) or it raises (the debugger is quit). *)
Variable breakpointhook : outcome unit.

Record t : Type := mk {
  dimension : Z;
  pose : Pose;
  axes_length : Array;
  _graph : DiGraph.t Pose;
  _local_poses : list Pose;
  _obstacle_list : list (Obstacle.t Pose);
  _root_idx : Z;
}.

Definition with_graph (g : DiGraph.t Pose) (self : t) : t :=
  {| dimension := dimension self; pose := pose self;
     axes_length := axes_length self; _graph := g;
     _local_poses := _local_poses self;
     _obstacle_list := _obstacle_list self; _root_idx := _root_idx self |}.

Definition with_local_poses (ps : list Pose) (self : t) : t :=
  {| dimension := dimension self; pose := pose self;
     axes_length := axes_length self; _graph := _graph self;
     _local_poses := ps;
     _obstacle_list := _obstacle_list self; _root_idx := _root_idx self |}.

Definition with_obstacle_list (os : list (Obstacle.t Pose)) (self : t) : t :=
  {| dimension := dimension self; pose := pose self;
     axes_length := axes_length self; _graph := _graph self;
     _local_poses := _local_poses self;
     _obstacle_list := os; _root_idx := _root_idx self |}.

(** [tree.pose = p], the assignment a pose driver makes before it calls
    [update_obstacles]. *)
Definition set_pose (p : Pose) (self : t) : t :=
  {| dimension := dimension self; pose := p;
     axes_length := axes_length self; _graph := _graph self;
     _local_poses := _local_poses self;
     _obstacle_list := _obstacle_list self; _root_idx := _root_idx self |}.

(** A method that mutates [self]: its outcome and [self] afterwards. *)
Definition method (A : Type) : Type := t -> outcome A * t.

Definition mret {A} (a : A) : method A := fun self => (Ret a, self).

Definition mraise {A} (e : exn) : method A := fun self => (Raise e, self).

Definition mbind {A B} (m : method A) (k : A -> method B) : method B :=
  fun self =>
    match m self with
    | (Ret a, self') => k a self'
    | (Raise e, self') => (Raise e, self')
    end.

Definition modify (f : t -> t) : method unit := fun self => (Ret tt, f self).

Definition reads {A} (f : t -> A) : method A := fun self => (Ret (f self), self).

Definition lift {A} (f : t -> outcome A) : method A := fun self => (f self, self).

Notation "'let*' x ':=' m 'in' k" := (mbind m (fun x => k))
  (at level 10, x binder, k at level 200).

(** The properties. *)
Definition n_components (self : t) : nat := length (_obstacle_list self).

Definition root_idx (self : t) : Z := _root_idx self.

(** [get_gamma(position, in_global_frame)] *)
Definition get_gamma (self : t) (position : Array) (in_global_frame : bool)
  : outcome Q :=
  obind (if negb in_global_frame
         then transform_pose_from_relative_of_array (pose self) position
         else Ret position) (fun position =>
  let gammas := map (fun obs => obstacle_get_gamma obs position)
                    (_obstacle_list self) in
  py_min gammas).

(** Events a caller can observe besides the result. *)
Inductive event : Set := EnteredDebugger.

(** [get_parent_idx(idx_obs)]: the bare [except] catches whatever the
    lookup raised and calls [breakpoint()]; when that returns, so does
    the function, with the implicit [None]. *)
Definition get_parent_idx (self : t) (idx_obs : Z)
  : list event * outcome (option Z) :=
  if decide (idx_obs = root_idx self) then ([], Ret None)
  else
    match obind (DiGraph.predecessors idx_obs (_graph self))
                (fun ps => py_getitem ps 0) with
    | Ret p => ([], Ret (Some p))
    | Raise _ =>
        ([EnteredDebugger], obind breakpointhook (fun _ => Ret None))
    end.

(** [get_component(idx_obs)] *)
Definition get_component (self : t) (idx_obs : Z) : outcome (Obstacle.t Pose) :=
  py_getitem (_obstacle_list self) idx_obs.

(** [set_root(obstacle)] *)
Definition set_root (obstacle : Obstacle.t Pose) : method unit :=
  let* _ := modify (fun self =>
    with_local_poses (_local_poses self ++ [Obstacle.pose obstacle]) self) in
  let* local := lift (fun self => py_getitem (_local_poses self) (-1)) in
  let* global := reads (fun self => transform_pose_from_relative (pose self) local) in
  let obstacle := Obstacle.set_pose global obstacle in
  let* _ := modify (fun self =>
    with_obstacle_list (_obstacle_list self ++ [obstacle]) self) in
  let obs_id := 0%Z in
  modify (fun self =>
    with_graph
      (DiGraph.add_node obs_id
         {| DiGraph.local_reference := None;
            DiGraph.indeces_children := Some [];
            DiGraph.references_children := Some [] |}
         (_graph self)) self).

(** [add_component(obstacle, reference_position, parent_ind)] *)
Definition add_component (obstacle : Obstacle.t Pose)
    (reference_position : Array) (parent_ind : Z) : method unit :=
  let obstacle := Obstacle.set_reference_point reference_position obstacle in
  let* new_id := reads (fun self => Z.of_nat (length (_obstacle_list self))) in
  let* _ := modify (fun self =>
    with_local_poses (_local_poses self ++ [Obstacle.pose obstacle]) self) in
  let* local := lift (fun self => py_getitem (_local_poses self) (-1)) in
  let* global := reads (fun self => transform_pose_from_relative (pose self) local) in
  let obstacle := Obstacle.set_pose global obstacle in
  let* _ := modify (fun self =>
    with_obstacle_list (_obstacle_list self ++ [obstacle]) self) in
  let* _ := modify (fun self =>
    with_graph
      (DiGraph.add_node new_id
         {| DiGraph.local_reference := Some reference_position;
            DiGraph.indeces_children := Some [];
            DiGraph.references_children := Some [] |}
         (_graph self)) self) in
  let* g := lift (fun self => DiGraph.append_child parent_ind new_id (_graph self)) in
  let* _ := modify (with_graph g) in
  modify (fun self =>
    with_graph (DiGraph.add_edge parent_ind new_id (_graph self)) self).

(** [update_obstacles(delta_time)]: the loop over
    [zip(self._local_poses, self._obstacle_list)]; members past the
    shorter of the two lists are not visited. *)
Fixpoint update_zip (frame : Pose) (poses : list Pose)
    (obstacles : list (Obstacle.t Pose)) : list (Obstacle.t Pose) :=
  match poses, obstacles with
  | local :: poses, obs :: obstacles =>
      Obstacle.set_shape (transform_pose_from_relative frame local) obs
        :: update_zip frame poses obstacles
  | _, _ => obstacles
  end.

Definition update_obstacles (delta_time : Q) : method unit :=
  modify (fun self =>
    with_obstacle_list
      (update_zip (pose self) (_local_poses self) (_obstacle_list self)) self).

(** [a[i]] on a numpy array *)
Definition np_getitem (a : Array) (i : nat) : outcome Q :=
  match a !! i with
  | Some x => Ret x
  | None => Raise IndexError
  end.

(** The object as [__init__] has it before it inserts the root. *)
Definition blank (axes : Array) (p : Pose) : t :=
  {| dimension := 2; pose := p; axes_length := axes;
     _graph := DiGraph.empty; _local_poses := []; _obstacle_list := [];
     _root_idx := 0 |}.

(** [BlockArchObstacle(wall_width, axes_length, pose)]; a float has one
    representation, so the rationals are kept in lowest terms. *)
Definition init (wall_width : Q) (axes : Array) (p : Pose) : method unit :=
  let* axes1 := lift (fun _ => np_getitem axes 1) in
  let* dim := reads dimension in
  let* _ := set_root
    (Obstacle.Cuboid [wall_width; axes1]
       (Pose_unrotated (repeat 0%Q (Z.to_nat dim)))) in
  let delta_pos := map (fun a => Qred ((a - wall_width) * (1 # 2))) axes in
  let* axes0 := lift (fun _ => np_getitem axes 0) in
  let* delta0 := lift (fun _ => np_getitem delta_pos 0) in
  let* _ := add_component
    (Obstacle.Cuboid [axes0; wall_width] (Pose_unrotated delta_pos))
    [Qred (- delta0); 0%Q] 0 in
  let* axes0 := lift (fun _ => np_getitem axes 0) in
  let* delta0 := lift (fun _ => np_getitem delta_pos 0) in
  let* delta1 := lift (fun _ => np_getitem delta_pos 1) in
  add_component
    (Obstacle.Cuboid [axes0; wall_width]
       (Pose_unrotated [delta0; Qred (- delta1)]))
    [Qred (- delta0); 0%Q] 0.

Definition new (wall_width : Q) (axes : Array) (p : Pose) : outcome t :=
  match init wall_width axes p (blank axes p) with
  | (Ret _, self) => Ret self
  | (Raise e, _) => Raise e
  end.

End BlockArchObstacle.
Arguments t : clear implicits.
End BlockArchObstacle.

(** ** The container ([class MultiObstacleContainer])

    Its members are [HierarchyObstacle]s, of which the container uses two
    methods, always with [in_global_frame=True]. *)

Module MultiObstacleContainer.
Section MultiObstacleContainer.
Context {T : Type}.

(** [obs.get_gamma(position, in_global_frame=True)] *)
Variable member_get_gamma : T -> Array -> outcome Q.

(** [obs.is_in_free_space(position, in_global_frame=True)] *)
Variable member_is_in_free_space : T -> Array -> outcome bool.

Record t : Type := mk { _obstacle_list : list T }.

(** The loop that fills [gammas]; a member that raises ends it. *)
Fixpoint fill_gammas (obstacles : list T) (position : Array)
  : outcome (list Q) :=
  match obstacles with
  | [] => Ret []
  | obs :: rest =>
      obind (member_get_gamma obs position) (fun g =>
      obind (fill_gammas rest position) (fun gs => Ret (g :: gs)))
  end.

(** [get_gamma(position, in_global_frame)] *)
Definition get_gamma (self : t) (position : Array) (in_global_frame : bool)
  : outcome Q :=
  if negb in_global_frame then Raise NotImplementedError
  else obind (fill_gammas (_obstacle_list self) position) py_min.

(** [append(obstacle)] *)
Definition append (obstacle : T) (self : t) : t :=
  {| _obstacle_list := _obstacle_list self ++ [obstacle] |}.

(** [len(container)] *)
Definition len (self : t) : nat := length (_obstacle_list self).

(** The loop of [is_in_free_space]; next to the result it reports the
    members it has queried, in the order of the calls. *)
Fixpoint free_loop (obstacles : list T) (position : Array)
  : list T * outcome bool :=
  match obstacles with
  | [] => ([], Ret true)
  | obs :: rest =>
      match member_is_in_free_space obs position with
      | Ret true =>
          let '(queried, result) := free_loop rest position in
          (obs :: queried, result)
      | Ret false => ([obs], Ret false)
      | Raise e => ([obs], Raise e)
      end
  end.

(** [is_in_free_space(position, in_global_frame)] *)
Definition is_in_free_space (self : t) (position : Array)
    (in_global_frame : bool) : list T * outcome bool :=
  if negb in_global_frame then ([], Raise NotImplementedError)
  else free_loop (_obstacle_list self) position.

End MultiObstacleContainer.
Arguments t : clear implicits.
End MultiObstacleContainer.

(** ** Instances for the examples *)

(** Planar poses whose orientation is a whole number of quarter turns:
    rigid motions that are exact in rational arithmetic. *)
Module GridPose.
Local Open Scope Q_scope.

Record t : Type := mk { position : Array; turns : Z }.

Definition rotate (k : Z) (v : Array) : Array :=
  match v with
  | [x; y] =>
      match (k mod 4)%Z return Array with
      | Z0 => [x; y]
      | Zpos 1 => [Qred (- y); x]
      | Zpos 2 => [Qred (- x); Qred (- y)]
      | _ => [y; Qred (- x)]
      end
  | _ => v
  end.

Fixpoint add (u v : Array) : Array :=
  match u, v with
  | x :: u, y :: v => Qred (x + y) :: add u v
  | _, _ => []
  end.

Definition from_relative (frame : t) (v : Array) : Array :=
  add (rotate (turns frame) v) (position frame).

(** The method takes a pose and reads its fields; an array has none of
    them, so handed an array the method raises. *)
#[global] Instance library : PoseLibrary t := {
  Pose_unrotated p := {| position := p; turns := 0%Z |};
  transform_pose_from_relative frame p :=
    {| position := from_relative frame (position p);
       turns := (turns frame + turns p)%Z |};
  transform_pose_from_relative_of_array frame v := Raise AttributeError;
}.

(** A proximity function for the examples: one plus the squared
    distance to the centre of the shape. *)
Fixpoint squared_distance (u v : Array) : Q :=
  match u, v with
  | x :: u, y :: v => (x - y) * (x - y) + squared_distance u v
  | _, _ => 0
  end.

Definition gamma (obs : Obstacle.t t) (at_position : Array) : Q :=
  Qred (1 + squared_distance at_position (position (Obstacle.pose obs))).
End GridPose.


(** ** Vocabulary of the statements *)

(** [m] is the minimum of [values]: one of them, and below all of them. *)
Definition is_minimum_of (m : Q) (values : list Q) : Prop :=
  m ∈ values ∧ ∀ g, g ∈ values → (m <= g)%Q.

Module Tree.
Section Tree.
Context {Pose : Type} `{!PoseLibrary Pose}.

(** One insertion: the shape as the caller hands it over, the reference
    position and the parent index; [set_root] takes neither of the two. *)
Record insertion : Type := Insertion {
  ins_shape : Obstacle.t Pose;
  ins_reference : option Array;
  ins_parent : option Z;
}.

(** The local pose an insertion records. *)
Definition local_pose (ins : insertion) : Pose := Obstacle.pose (ins_shape ins).

(** The shape as the tree stores it at insertion, in the frame [frame]. *)
Definition stored (frame : Pose) (ins : insertion) : Obstacle.t Pose :=
  let shape := match ins_reference ins with
               | Some r => Obstacle.set_reference_point r (ins_shape ins)
               | None => ins_shape ins
               end in
  Obstacle.set_pose (transform_pose_from_relative frame (local_pose ins)) shape.

(** The parents [add_edge] has recorded for an insertion. *)
Definition parent_list (ins : insertion) : list Z :=
  match ins_parent ins with
  | Some p => [p]
  | None => []
  end.

(** Trees built by one [set_root] on a blank object followed by
    [add_component] calls whose parent index names a node that is there;
    the list is the history of the insertions. *)
Inductive built (axes : Array) (frame : Pose)
  : list insertion -> BlockArchObstacle.t Pose -> Prop :=
| built_root shape :
    built axes frame
      [Insertion shape None None]
      (snd (BlockArchObstacle.set_root shape (BlockArchObstacle.blank axes frame)))
| built_add history self shape reference parent :
    built axes frame history self ->
    (0 <= parent < Z.of_nat (BlockArchObstacle.n_components self))%Z ->
    built axes frame
      (history ++ [Insertion shape (Some reference) (Some parent)])
      (snd (BlockArchObstacle.add_component shape reference parent self)).

(** What the dictionaries of the graph hold after the insertions of
    [history]: the invariant of the construction. *)
Record graph_of (history : list insertion) (g : DiGraph.t Pose) : Prop := {
  node_dom : ∀ z, is_Some (DiGraph._node g !! z)
                  ↔ (0 <= z < Z.of_nat (length history))%Z;
  node_children : ∀ z a, DiGraph._node g !! z = Some a →
                         is_Some (DiGraph.indeces_children a);
  succ_dom : ∀ z, is_Some (DiGraph._succ g !! z)
                  ↔ (0 <= z < Z.of_nat (length history))%Z;
  pred_dom : ∀ z, is_Some (DiGraph._pred g !! z)
                  ↔ (0 <= z < Z.of_nat (length history))%Z;
  pred_parent : ∀ k ins, history !! k = Some ins →
                         DiGraph._pred g !! Z.of_nat k = Some (parent_list ins);
  succ_child : ∀ u vs v, DiGraph._succ g !! u = Some vs →
                         (v ∈ vs ↔ ∃ k ins, v = Z.of_nat k ∧ history !! k = Some ins
                                            ∧ ins_parent ins = Some u);
}.

(** The root comes first and has no parent; every later insertion names
    an earlier one as its parent. *)
Definition parents_earlier (history : list insertion) : Prop :=
  ∀ k ins, history !! k = Some ins →
    match k with
    | O => ins_parent ins = None
    | S _ => ∃ p, ins_parent ins = Some p ∧ (0 <= p < Z.of_nat k)%Z
    end.

Record invariant (axes : Array) (frame : Pose) (history : list insertion)
    (self : BlockArchObstacle.t Pose) : Prop := {
  inv_pose : BlockArchObstacle.pose self = frame;
  inv_root : BlockArchObstacle.root_idx self = 0%Z;
  inv_nonempty : history ≠ [];
  inv_obstacles : BlockArchObstacle._obstacle_list self = map (stored frame) history;
  inv_local : BlockArchObstacle._local_poses self = map local_pose history;
  inv_history : parents_earlier history;
  inv_graph : graph_of history (BlockArchObstacle._graph self);
}.

(** A single rooted tree on the nodes [0 .. n-1]. *)
Record rooted_tree (g : DiGraph.t Pose) (n : nat) : Prop := {
  dense : ∀ z, DiGraph.has_node z g ↔ (0 <= z < Z.of_nat n)%Z;
  root_parentless : DiGraph.predecessors 0 g = Ret [];
  one_parent : ∀ z, (0 < z < Z.of_nat n)%Z →
                    ∃ p, DiGraph.predecessors z g = Ret [p] ∧ DiGraph.has_node p g;
  parents_are_edges : ∀ u v, DiGraph.has_edge u v g
                             ↔ ∃ ps, DiGraph.predecessors v g = Ret ps ∧ u ∈ ps;
  acyclic : ∀ z, ¬ DiGraph.walk g z z;
  connected : ∀ z, DiGraph.has_node z g → z = 0%Z ∨ DiGraph.walk g 0 z;
}.

(** The object a failed [add_component] leaves behind: the shape, its
    local pose and its graph node are in, the link to a parent is not. *)
Definition half_inserted (shape : Obstacle.t Pose) (reference : Array)
    (self : BlockArchObstacle.t Pose) : BlockArchObstacle.t Pose :=
  let ins := Insertion shape (Some reference) None in
  BlockArchObstacle.with_graph
    (DiGraph.add_node (Z.of_nat (BlockArchObstacle.n_components self))
       {| DiGraph.local_reference := Some reference;
          DiGraph.indeces_children := Some [];
          DiGraph.references_children := Some [] |}
       (BlockArchObstacle._graph self))
    (BlockArchObstacle.with_obstacle_list
       (BlockArchObstacle._obstacle_list self
          ++ [stored (BlockArchObstacle.pose self) ins])
       (BlockArchObstacle.with_local_poses
          (BlockArchObstacle._local_poses self ++ [local_pose ins]) self)).
End Tree.
Arguments insertion : clear implicits.
End Tree.

(** ** Examples *)

(** The arch of the repository's tests, [wall_width=0.4] and
    [axes_length=[3.0, 5]], at the origin and moved one unit along x. *)
Module Examples.
Local Open Scope Q_scope.

Definition origin : GridPose.t := {| GridPose.position := [0; 0]; GridPose.turns := 0%Z |}.
Definition moved : GridPose.t := {| GridPose.position := [1; 0]; GridPose.turns := 0%Z |}.

Definition arch_at (p : GridPose.t) : BlockArchObstacle.t GridPose.t :=
  snd (BlockArchObstacle.init (2 # 5) [3; 5] p (BlockArchObstacle.blank [3; 5] p)).

Definition arch : BlockArchObstacle.t GridPose.t := arch_at origin.

Definition block : Obstacle.t GridPose.t :=
  Obstacle.Cuboid [1; 1] {| GridPose.position := [2; 2]; GridPose.turns := 0%Z |}.

(** The three cuboids the constructor makes for that arch, and the
    insertions it performs. *)
Definition root_shape : Obstacle.t GridPose.t :=
  Obstacle.Cuboid [2 # 5; 5] {| GridPose.position := [0; 0]; GridPose.turns := 0%Z |}.

Definition leg_above : Obstacle.t GridPose.t :=
  Obstacle.Cuboid [3; 2 # 5]
    {| GridPose.position := [13 # 10; 23 # 10]; GridPose.turns := 0%Z |}.

Definition leg_below : Obstacle.t GridPose.t :=
  Obstacle.Cuboid [3; 2 # 5]
    {| GridPose.position := [13 # 10; -23 # 10]; GridPose.turns := 0%Z |}.

Definition arch_history : list (Tree.insertion GridPose.t) :=
  [ Tree.Insertion root_shape None None;
    Tree.Insertion leg_above (Some [-13 # 10; 0]) (Some 0%Z);
    Tree.Insertion leg_below (Some [-13 # 10; 0]) (Some 0%Z) ].

(** A query point of the tests. *)
Definition outside : Array := [4; 8 # 5].

(** Two arches in one container. *)
Definition two_arches : MultiObstacleContainer.t (BlockArchObstacle.t GridPose.t) :=
  MultiObstacleContainer.append (arch_at moved)
    (MultiObstacleContainer.append arch
       {| MultiObstacleContainer._obstacle_list := [] |}).

(** Test doubles for the container: a member that answers with the flag
    it carries. *)
Definition canned_free (flag : bool) (position : Array) : outcome bool := Ret flag.

Definition doubles : MultiObstacleContainer.t bool :=
  {| MultiObstacleContainer._obstacle_list := [true; false; true] |}.

(** Members that answer with the outcome they carry. *)
Definition canned_gamma (answer : outcome Q) (position : Array) : outcome Q :=
  answer.

Definition canned_answer (answer : outcome bool) (position : Array)
  : outcome bool := answer.

(** Planar vectors for the trajectories: sum and product with a float,
    entry by entry, and two velocity fields. *)
Definition scale (v : Array) (factor : Q) : Array :=
  map (fun x => Qred (x * factor)) v.

Definition drift (position : Array) : Array := [1; 0].

Definition rest (position : Array) : Array := [0; 0].
End Examples.

(** ** The rest of the two classes, and the scripts *)

(** [create_arch_obstacle(wall_width, axes_length, pose)] *)
Definition create_arch_obstacle {Pose : Type} `{!PoseLibrary Pose}
    (wall_width : Q) (axes_length : Array) (pose : Pose)
  : outcome (BlockArchObstacle.t Pose) :=
  BlockArchObstacle.new wall_width axes_length pose.

(** [iter(container)]: the members in the order of the list. *)
Definition container_iter {T} (self : MultiObstacleContainer.t T) : list T :=
  MultiObstacleContainer._obstacle_list self.

(** [MultiObstacleContainer()] and a run of [append] calls. *)
Definition container_of {T} (trees : list T) : MultiObstacleContainer.t T :=
  fold_left (fun self tree => MultiObstacleContainer.append tree self) trees
    {| MultiObstacleContainer._obstacle_list := [] |}.

(** [tree.is_in_free_space(position, in_global_frame=True)] on a
    [BlockArchObstacle]: the class defines no such method and has no base
    class, so the attribute lookup raises. *)
Definition block_arch_is_in_free_space {Pose : Type}
    (tree : BlockArchObstacle.t Pose) (position : Array) : outcome bool :=
  Raise AttributeError.

Module Arch.
Section Arch.
Context {Pose : Type} `{!PoseLibrary Pose}.

(** [delta_pos] of the constructor. *)
Definition delta_pos (wall_width : Q) (axes : Array) : Array :=
  map (fun a => Qred ((a - wall_width) * (1 # 2))) axes.

(** The three insertions [__init__] performs when [axes_length] starts
    with [axes0; axes1]. *)
Definition insertions (wall_width axes0 axes1 : Q) (rest : Array)
  : list (Tree.insertion Pose) :=
  let delta := delta_pos wall_width (axes0 :: axes1 :: rest) in
  let delta0 := Qred ((axes0 - wall_width) * (1 # 2)) in
  let delta1 := Qred ((axes1 - wall_width) * (1 # 2)) in
  [ Tree.Insertion
      (Obstacle.Cuboid [wall_width; axes1] (Pose_unrotated [0%Q; 0%Q]))
      None None;
    Tree.Insertion
      (Obstacle.Cuboid [axes0; wall_width] (Pose_unrotated delta))
      (Some [Qred (- delta0); 0%Q]) (Some 0%Z);
    Tree.Insertion
      (Obstacle.Cuboid [axes0; wall_width]
         (Pose_unrotated [delta0; Qred (- delta1)]))
      (Some [Qred (- delta0); 0%Q]) (Some 0%Z) ].

(** The indices of the insertions of [history], counted from [k], whose
    parent is [u]; in the order of insertion. *)
Fixpoint children_from (k : nat) (history : list (Tree.insertion Pose)) (u : Z)
  : list Z :=
  match history with
  | [] => []
  | ins :: rest =>
      (if decide (Tree.ins_parent ins = Some u) then [Z.of_nat k] else [])
        ++ children_from (S k) rest u
  end.

Definition children_of (history : list (Tree.insertion Pose)) (u : Z) : list Z :=
  children_from 0 history u.

(** The attribute dictionary of the node of an insertion. *)
Definition attrs_of (history : list (Tree.insertion Pose)) (k : nat)
    (ins : Tree.insertion Pose) : DiGraph.attrs Pose :=
  {| DiGraph.local_reference := Tree.ins_reference ins;
     DiGraph.indeces_children := Some (children_of history (Z.of_nat k));
     DiGraph.references_children := Some [] |}.

(** What the node dictionary and the successor dictionary hold for every
    insertion. *)
Definition bookkeeping (history : list (Tree.insertion Pose))
    (g : DiGraph.t Pose) : Prop :=
  ∀ k ins, history !! k = Some ins →
    DiGraph._node g !! Z.of_nat k = Some (attrs_of history k ins)
    ∧ DiGraph._succ g !! Z.of_nat k = Some (children_of history (Z.of_nat k)).
End Arch.
End Arch.

(** *** [integrate_trajectory] of [scripts/three_dimensional/human_avoidance.py]

    The matrix [positions] is the list of its columns.  The vectors are
    those of the dimension of [start]; their sum and their product with a
    float are the array library's, and so is the zero column.  How large a
    matrix the library makes depends on the platform and its memory: that
    is the parameter [zeros_limit], and [too_big] is what the library
    raises beyond it. *)
Module Trajectory.
Section Trajectory.
Context {Vector : Type}.
Variable zero : Vector.
Variable add : Vector -> Vector -> Vector.
Variable scale : Vector -> Q -> Vector.
Variable velocity_functor : Vector -> Vector.
Variable zeros_limit : nat.
Variable too_big : Z -> exn.

(** [np.zeros((d, columns))] *)
Definition np_zeros (columns : Z) : outcome (list Vector) :=
  if (columns <? 0)%Z then Raise ValueError
  else if (Z.of_nat zeros_limit <? columns)%Z then Raise (too_big columns)
  else Ret (replicate (Z.to_nat columns) zero).

(** [positions[:, i] = x] *)
Definition set_column (i : nat) (x : Vector) (positions : list Vector)
  : outcome (list Vector) :=
  if decide (i < length positions)%nat then Ret (<[i := x]> positions)
  else Raise IndexError.

(** [positions[:, i]] *)
Definition get_column (i : nat) (positions : list Vector) : outcome Vector :=
  match positions !! i with
  | Some x => Ret x
  | None => Raise IndexError
  end.

(** One turn of the loop.  The state is the arguments the functor has
    been called with so far, and the matrix, or the exception that has
    ended the run. *)
Definition turn (step_size : Q) (state : list Vector * outcome (list Vector))
    (ii : nat) : list Vector * outcome (list Vector) :=
  match state with
  | (calls, Raise e) => (calls, Raise e)
  | (calls, Ret positions) =>
      match get_column ii positions with
      | Raise e => (calls, Raise e)
      | Ret x =>
          let velocity := velocity_functor x in
          (calls ++ [x],
           obind (get_column ii positions) (fun y =>
           set_column (S ii) (add y (scale velocity step_size)) positions))
      end
  end.

(** [integrate_trajectory(start, it_max, step_size, velocity_functor)]:
    the arguments of the calls of the functor, and the matrix returned. *)
Definition integrate_trajectory (start : Vector) (it_max : Z) (step_size : Q)
  : list Vector * outcome (list Vector) :=
  match obind (np_zeros (it_max + 1)) (set_column 0 start) with
  | Raise e => ([], Raise e)
  | Ret positions =>
      fold_left (turn step_size) (seq 0 (Z.to_nat it_max)) ([], Ret positions)
  end.

(** [integrate_trajectory_with_differences], the same body. *)
Definition integrate_trajectory_with_differences (start : Vector) (it_max : Z)
    (step_size : Q) : list Vector * outcome (list Vector) :=
  match obind (np_zeros (it_max + 1)) (set_column 0 start) with
  | Raise e => ([], Raise e)
  | Ret positions =>
      fold_left (turn step_size) (seq 0 (Z.to_nat it_max)) ([], Ret positions)
  end.

(** The explicit Euler step and the points it visits from [x] in [n]
    steps, [x] included. *)
Definition euler (step_size : Q) (x : Vector) : Vector :=
  add x (scale (velocity_functor x) step_size).

Fixpoint orbit (step_size : Q) (n : nat) (x : Vector) : list Vector :=
  x :: match n with
       | O => []
       | S n => orbit step_size n (euler step_size x)
       end.

(** The first [k] points of the iteration from [start], by their number. *)
Definition points (step_size : Q) (start : Vector) (k : nat) : list Vector :=
  map (fun i => Nat.iter i (euler step_size) start) (seq 0 k).
End Trajectory.
End Trajectory.

(** *** Shapes as shared objects

    [add_component] changes the shape object the caller hands over and
    appends that very object to the list of members.  To follow a shape
    that is handed over while it is a member already, shapes are
    references here, and a heap says what each reference denotes. *)
Module Shared.
Section Shared.
Context {Pose : Type} `{!PoseLibrary Pose}.
Variable obstacle_get_gamma : Obstacle.t Pose -> Array -> Q.

Definition heap : Type := nat -> Obstacle.t Pose.

(** An assignment to an attribute of the object [obj]. *)
Definition assign (obj : nat) (change : Obstacle.t Pose -> Obstacle.t Pose)
    (h : heap) : heap :=
  fun r => if decide (r = obj) then change (h r) else h r.

(** The attributes of the tree these methods touch; the members are
    references. *)
Record t : Type := mk {
  pose : Pose;
  _graph : DiGraph.t Pose;
  _local_poses : list Pose;
  _obstacle_list : list nat;
}.

(** [add_component(obstacle, reference_position, parent_ind)] *)
Definition add_component (obstacle : nat) (reference_position : Array)
    (parent_ind : Z) (state : heap * t) : outcome unit * (heap * t) :=
  let '(h, self) := state in
  let h := assign obstacle (Obstacle.set_reference_point reference_position) h in
  let new_id := Z.of_nat (length (_obstacle_list self)) in
  let local_poses := _local_poses self ++ [Obstacle.pose (h obstacle)] in
  match py_getitem local_poses (-1) with
  | Raise e =>
      (Raise e,
       (h, {| pose := pose self; _graph := _graph self;
              _local_poses := local_poses;
              _obstacle_list := _obstacle_list self |}))
  | Ret local =>
      let h := assign obstacle
                 (Obstacle.set_pose
                    (transform_pose_from_relative (pose self) local)) h in
      let members := _obstacle_list self ++ [obstacle] in
      let g := DiGraph.add_node new_id
                 {| DiGraph.local_reference := Some reference_position;
                    DiGraph.indeces_children := Some [];
                    DiGraph.references_children := Some [] |}
                 (_graph self) in
      match DiGraph.append_child parent_ind new_id g with
      | Raise e =>
          (Raise e,
           (h, {| pose := pose self; _graph := g;
                  _local_poses := local_poses; _obstacle_list := members |}))
      | Ret g =>
          (Ret tt,
           (h, {| pose := pose self;
                  _graph := DiGraph.add_edge parent_ind new_id g;
                  _local_poses := local_poses; _obstacle_list := members |}))
      end
  end.

(** [get_component(idx_obs)]: the object at the index, as it is now. *)
Definition get_component (state : heap * t) (idx_obs : Z)
  : outcome (Obstacle.t Pose) :=
  let '(h, self) := state in
  obind (py_getitem (_obstacle_list self) idx_obs) (fun r => Ret (h r)).

(** [get_gamma(position, in_global_frame)] *)
Definition get_gamma (state : heap * t) (position : Array)
    (in_global_frame : bool) : outcome Q :=
  let '(h, self) := state in
  obind (if negb in_global_frame
         then transform_pose_from_relative_of_array (pose self) position
         else Ret position) (fun position =>
  let gammas := map (fun r => obstacle_get_gamma (h r) position)
                    (_obstacle_list self) in
  py_min gammas).

(** The tree with its members read off the heap. *)
Definition members (state : heap * t) : list (Obstacle.t Pose) :=
  map (fst state) (_obstacle_list (snd state)).
End Shared.
Arguments t : clear implicits.
Arguments heap : clear implicits.
End Shared.

(** The arch with its three members as the objects 0, 1 and 2; every
    other reference denotes a cuboid that is no member. *)
Module SharedExamples.
Definition objects : Shared.heap GridPose.t :=
  fun r => nth r (BlockArchObstacle._obstacle_list Examples.arch) Examples.block.

Definition arch : Shared.t GridPose.t :=
  {| Shared.pose := BlockArchObstacle.pose Examples.arch;
     Shared._graph := BlockArchObstacle._graph Examples.arch;
     Shared._local_poses := BlockArchObstacle._local_poses Examples.arch;
     Shared._obstacle_list := [0; 1; 2]%nat |}.
End SharedExamples.

(** * Properties *)

(** ** Minimum and indexing *)

Lemma min_from_le_current current items : (min_from current items <= current)%Q.
Proof.
  revert current. induction items as [|item rest IH]; intros current; simpl.
  - apply Qle_refl.
  - destruct (Qle_bool current item) eqn:E; [apply IH|].
    eapply Qle_trans; [apply IH|].
    destruct (Qlt_le_dec item current) as [Hlt|Hle].
    + by apply Qlt_le_weak.
    + apply Qle_bool_iff in Hle. congruence.
Qed.

Lemma min_from_le_items current items g :
  g ∈ items → (min_from current items <= g)%Q.
Proof.
  revert current. induction items as [|item rest IH]; intros current Hin; simpl.
  - by apply elem_of_nil in Hin.
  - apply elem_of_cons in Hin as [->|Hin]; [|by apply IH].
    eapply Qle_trans; [apply min_from_le_current|].
    destruct (Qle_bool current item) eqn:E.
    + by apply Qle_bool_iff.
    + apply Qle_refl.
Qed.

Lemma min_from_elem current items :
  min_from current items ∈ current :: items.
Proof.
  revert current. induction items as [|item rest IH]; intros current; simpl.
  - apply elem_of_cons. by left.
  - specialize (IH (if Qle_bool current item then current else item)).
    apply elem_of_cons in IH as [->|IH].
    + destruct (Qle_bool current item).
      * apply elem_of_cons. by left.
      * apply elem_of_cons. right. apply elem_of_cons. by left.
    + apply elem_of_cons. right. apply elem_of_cons. by right.
Qed.

Lemma py_min_minimum items :
  items ≠ [] → ∃ m, py_min items = Ret m ∧ is_minimum_of m items.
Proof.
  destruct items as [|item rest]; [done|]. intros _.
  exists (min_from item rest). split; [done|]. split.
  - apply min_from_elem.
  - intros g Hg. apply elem_of_cons in Hg as [->|Hg].
    + apply min_from_le_current.
    + by apply min_from_le_items.
Qed.

Lemma py_getitem_nonneg {A} (l : list A) (i : Z) x :
  (0 <= i)%Z → l !! Z.to_nat i = Some x → py_getitem l i = Ret x.
Proof.
  intros Hi Hx. unfold py_getitem.
  pose proof (lookup_lt_Some _ _ _ Hx) as Hlt.
  destruct (Z.ltb_spec i 0); [lia|].
  destruct (Z.leb_spec 0 i); [|lia].
  destruct (Z.ltb_spec i (Z.of_nat (length l))); [|lia].
  simpl. by rewrite Hx.
Qed.

Lemma py_getitem_last {A} (l : list A) x : py_getitem (l ++ [x]) (-1) = Ret x.
Proof.
  unfold py_getitem. rewrite length_app. simpl.
  destruct (Z.leb_spec 0 (Z.of_nat (length l + 1) + -1)); [|lia].
  destruct (Z.ltb_spec (Z.of_nat (length l + 1) + -1) (Z.of_nat (length l + 1))); [|lia].
  simpl.
  replace (Z.to_nat (Z.of_nat (length l + 1) + -1)) with (length l) by lia.
  by rewrite list_lookup_middle.
Qed.

Lemma py_getitem_out_of_range {A} (l : list A) (i : Z) :
  (Z.of_nat (length l) <= i ∨ i < - Z.of_nat (length l))%Z →
  py_getitem l i = Raise IndexError.
Proof.
  intros Hi. unfold py_getitem.
  destruct (Z.ltb_spec i 0).
  - destruct (Z.leb_spec 0 (Z.of_nat (length l) + i)); [lia|done].
  - destruct (Z.leb_spec 0 i); [|lia].
    destruct (Z.ltb_spec i (Z.of_nat (length l))); [lia|done].
Qed.

Lemma py_getitem_negative {A} (l : list A) (i : Z) :
  (- Z.of_nat (length l) <= i < 0)%Z →
  py_getitem l i = py_getitem l (Z.of_nat (length l) + i)
  ∧ returns (py_getitem l i) = true.
Proof.
  intros Hi. unfold py_getitem.
  destruct (Z.ltb_spec i 0); [|lia].
  destruct (Z.ltb_spec (Z.of_nat (length l) + i) 0); [lia|].
  destruct (Z.leb_spec 0 (Z.of_nat (length l) + i)); [|lia].
  destruct (Z.ltb_spec (Z.of_nat (length l) + i) (Z.of_nat (length l))); [|lia].
  simpl. split; [done|].
  destruct (lookup_lt_is_Some_2 l (Z.to_nat (Z.of_nat (length l) + i))) as [x ->]; [lia|done].
Qed.

(** ** The container *)

Section ContainerProperties.
Context {T : Type}.
Variable member_get_gamma : T -> Array -> outcome Q.
Variable member_is_in_free_space : T -> Array -> outcome bool.

Abbreviation container_get_gamma :=
  (MultiObstacleContainer.get_gamma member_get_gamma).
Abbreviation container_is_in_free_space :=
  (MultiObstacleContainer.is_in_free_space member_is_in_free_space).
Abbreviation free_loop := (MultiObstacleContainer.free_loop member_is_in_free_space).
Abbreviation reports_free position :=
  (fun tree => member_is_in_free_space tree position = Ret true).

Lemma fill_gammas_returns trees position gs :
  Forall2 (fun tree g => member_get_gamma tree position = Ret g) trees gs →
  MultiObstacleContainer.fill_gammas member_get_gamma trees position = Ret gs.
Proof.
  induction 1 as [|tree g trees gs Hg _ IH]; simpl; [done|].
  by rewrite Hg, IH.
Qed.

Lemma container_get_gamma_minimum self position gs :
  MultiObstacleContainer._obstacle_list self ≠ [] →
  Forall2 (fun tree g => member_get_gamma tree position = Ret g)
          (MultiObstacleContainer._obstacle_list self) gs →
  ∃ m, container_get_gamma self position true = Ret m ∧ is_minimum_of m gs.
Proof.
  intros Hne Hgs. unfold MultiObstacleContainer.get_gamma. simpl.
  rewrite (fill_gammas_returns _ _ _ Hgs). simpl.
  apply py_min_minimum. intros ->.
  apply Forall2_nil_inv_r in Hgs. done.
Qed.


Lemma free_loop_true trees position :
  snd (free_loop trees position) = Ret true
  ↔ Forall (reports_free position) trees.
Proof.
  induction trees as [|tree trees IH]; simpl.
  - split; [constructor|done].
  - destruct (member_is_in_free_space tree position) as [[]|e] eqn:E.
    + destruct (free_loop trees position) as [queried result]. simpl in *.
      rewrite IH. split.
      * by constructor.
      * by inversion 1.
    + split; [done|]. inversion 1; congruence.
    + split; [done|]. inversion 1; congruence.
Qed.

Lemma free_loop_all_queried trees position :
  Forall (reports_free position) trees →
  free_loop trees position = (trees, Ret true).
Proof.
  induction 1 as [|tree trees Hfree _ IH]; simpl; [done|].
  by rewrite Hfree, IH.
Qed.

Lemma free_loop_stops before tree after position :
  Forall (reports_free position) before →
  member_is_in_free_space tree position ≠ Ret true →
  free_loop (before ++ tree :: after) position
  = (before ++ [tree],
     obind (member_is_in_free_space tree position) (fun _ => Ret false)).
Proof.
  induction 1 as [|first before Hfree _ IH]; intros Hocc; simpl.
  - by destruct (member_is_in_free_space tree position) as [[]|e].
  - by rewrite Hfree, IH.
Qed.

Lemma free_loop_returns trees position :
  Forall (fun tree => returns (member_is_in_free_space tree position) = true)
         trees →
  returns (snd (free_loop trees position)) = true.
Proof.
  induction 1 as [|tree trees Hret _ IH]; simpl; [done|].
  destruct (member_is_in_free_space tree position) as [[]|e]; [|done..].
  by destruct (free_loop trees position).
Qed.

(** C9: [get_gamma] on a container that holds no tree raises, whatever the
    position and the frame flag: [ValueError] from [min] of the empty
    sequence in the global frame, [NotImplementedError] otherwise.  No
    number comes back. *)
Theorem empty_container_gamma_raises position in_global_frame :
  let empty := {| MultiObstacleContainer._obstacle_list := [] |} in
  MultiObstacleContainer.get_gamma member_get_gamma empty position in_global_frame
  = Raise (if in_global_frame then ValueError else NotImplementedError)
  ∧ raises (MultiObstacleContainer.get_gamma member_get_gamma empty position
              in_global_frame) = true.
Proof. by destruct in_global_frame. Qed.

(** C10: [is_in_free_space] on a container that holds no tree returns
    [True] for every position, without raising and without a query,
    whereas [get_gamma] on the same container raises. *)
Theorem empty_container_is_free position :
  let empty := {| MultiObstacleContainer._obstacle_list := [] |} in
  MultiObstacleContainer.is_in_free_space member_is_in_free_space empty
    position true = ([], Ret true)
  ∧ raises (MultiObstacleContainer.get_gamma member_get_gamma empty position
              true) = true.
Proof. done. Qed.

(** C7: [is_in_free_space] of a container returns [True] exactly when
    every member tree reports the position free, and then it has queried
    them all, in order; it returns when its members do; and behind the
    first tree that reports the position occupied no tree is queried: the
    queries are the trees up to that one, and the result is [False]. *)
Theorem container_free_space_and_fold self position :
  let trees := MultiObstacleContainer._obstacle_list self in
  let run := container_is_in_free_space self position true in
  (snd run = Ret true ↔ Forall (reports_free position) trees)
  ∧ (snd run = Ret true → fst run = trees)
  ∧ (Forall (fun tree => returns (member_is_in_free_space tree position) = true)
            trees → returns (snd run) = true)
  ∧ (∀ before tree after,
       trees = before ++ tree :: after →
       Forall (reports_free position) before →
       member_is_in_free_space tree position = Ret false →
       run = (before ++ [tree], Ret false)).
Proof.
  intros trees run. subst run.
  unfold MultiObstacleContainer.is_in_free_space. simpl. fold trees.
  split; [apply free_loop_true|]. split; [|split].
  - intros Hall%free_loop_true. by rewrite free_loop_all_queried.
  - apply free_loop_returns.
  - intros before tree after -> Hfree Hocc.
    rewrite free_loop_stops by (done || congruence). by rewrite Hocc.
Qed.

End ContainerProperties.

(** ** Graph operations *)

Section GraphProperties.
Context {Pose : Type}.
Implicit Types g : DiGraph.t Pose.

Lemma elem_of_adj_set (k v : Z) (keys : list Z) :
  v ∈ DiGraph.adj_set k keys ↔ v ∈ keys ∨ v = k.
Proof.
  unfold DiGraph.adj_set. destruct (decide (k ∈ keys)) as [Hk|Hk].
  - split; [by left|]. by intros [Hv| ->].
  - by rewrite elem_of_app, list_elem_of_singleton.
Qed.

Lemma walk_snoc g u v w :
  DiGraph.walk g u v → DiGraph.has_edge v w g → DiGraph.walk g u w.
Proof.
  induction 1 as [u v Huv|u v x Huv _ IH]; intros Hvw.
  - eapply DiGraph.walk_step; [done|]. by apply DiGraph.walk_edge.
  - eapply DiGraph.walk_step; [done|]. by apply IH.
Qed.

Lemma walk_increasing g :
  (∀ u v, DiGraph.has_edge u v g → (u < v)%Z) →
  ∀ u v, DiGraph.walk g u v → (u < v)%Z.
Proof.
  intros Hedge u v. induction 1 as [u v Huv|u v w Huv _ IH].
  - by apply Hedge.
  - apply Hedge in Huv. lia.
Qed.

(** Adding a node whose identifier is new. *)
Lemma add_node_fresh n new g :
  DiGraph._succ g !! n = None →
  DiGraph.add_node n new g
  = {| DiGraph._node := <[n := new]> (DiGraph._node g);
       DiGraph._succ := <[n := []]> (DiGraph._succ g);
       DiGraph._pred := <[n := []]> (DiGraph._pred g) |}.
Proof. intros Hn. unfold DiGraph.add_node. by rewrite Hn. Qed.

(** Adding a node that is already there touches neither the set of nodes
    nor the edges. *)
Lemma add_node_again n new g :
  is_Some (DiGraph._succ g !! n) →
  DiGraph._succ (DiGraph.add_node n new g) = DiGraph._succ g
  ∧ DiGraph._pred (DiGraph.add_node n new g) = DiGraph._pred g
  ∧ (∀ z, DiGraph.has_node z (DiGraph.add_node n new g) ↔ DiGraph.has_node z g)
  ∧ DiGraph._node (DiGraph.add_node n new g) !! n
    = DiGraph.attrs_update new <$> DiGraph._node g !! n.
Proof.
  intros [vs Hn]. unfold DiGraph.add_node, DiGraph.has_node. rewrite Hn. simpl.
  split; [done|]. split; [done|]. split.
  - intros z. apply lookup_alter_is_Some.
  - apply lookup_alter_eq.
Qed.

(** After [add_node n], a lookup of another node that is not in the graph
    still fails. *)
Lemma add_node_lookup_other n new g z :
  z ≠ n → DiGraph._node (DiGraph.add_node n new g) !! z = DiGraph._node g !! z.
Proof.
  intros Hz. unfold DiGraph.add_node.
  destruct (DiGraph._succ g !! n); simpl.
  - by rewrite lookup_alter_ne.
  - by rewrite lookup_insert_ne.
Qed.

End GraphProperties.

(** ** The tree: what the methods compute *)

Section TreeProperties.
Context {Pose : Type} `{!PoseLibrary Pose}.
Variable obstacle_get_gamma : Obstacle.t Pose -> Array -> Q.
Variable breakpointhook : outcome unit.
Implicit Types self : BlockArchObstacle.t Pose.
Implicit Types history : list (Tree.insertion Pose).

Abbreviation tree_get_gamma := (BlockArchObstacle.get_gamma obstacle_get_gamma).
Abbreviation get_parent_idx := (BlockArchObstacle.get_parent_idx breakpointhook).
Abbreviation member_gammas self position :=
  (map (fun obs => obstacle_get_gamma obs position)
       (BlockArchObstacle._obstacle_list self)).

Lemma tree_get_gamma_minimum self position :
  (1 <= BlockArchObstacle.n_components self)%nat →
  ∃ m, tree_get_gamma self position true = Ret m
       ∧ is_minimum_of m (member_gammas self position).
Proof.
  intros Hn. unfold BlockArchObstacle.get_gamma. simpl.
  apply py_min_minimum. unfold BlockArchObstacle.n_components in Hn.
  destruct (BlockArchObstacle._obstacle_list self); simpl in *; [lia|done].
Qed.


Lemma set_root_eq shape self :
  BlockArchObstacle.set_root shape self
  = (Ret tt,
     BlockArchObstacle.with_graph
       (DiGraph.add_node 0
          {| DiGraph.local_reference := None;
             DiGraph.indeces_children := Some [];
             DiGraph.references_children := Some [] |}
          (BlockArchObstacle._graph self))
       (BlockArchObstacle.with_obstacle_list
          (BlockArchObstacle._obstacle_list self
             ++ [Tree.stored (BlockArchObstacle.pose self)
                   (Tree.Insertion shape None None)])
          (BlockArchObstacle.with_local_poses
             (BlockArchObstacle._local_poses self ++ [Obstacle.pose shape])
             self))).
Proof.
  unfold BlockArchObstacle.set_root, BlockArchObstacle.mbind,
    BlockArchObstacle.modify, BlockArchObstacle.lift, BlockArchObstacle.reads.
  simpl. by rewrite py_getitem_last.
Qed.

(** [add_component] up to the lookup of the parent, and from there on. *)
Lemma add_component_eq shape reference parent self :
  let half := Tree.half_inserted shape reference self in
  let new_id := Z.of_nat (BlockArchObstacle.n_components self) in
  BlockArchObstacle.add_component shape reference parent self
  = match DiGraph.append_child parent new_id (BlockArchObstacle._graph half) with
    | Ret g =>
        (Ret tt,
         BlockArchObstacle.with_graph (DiGraph.add_edge parent new_id g) half)
    | Raise e => (Raise e, half)
    end.
Proof.
  unfold BlockArchObstacle.add_component, BlockArchObstacle.mbind,
    BlockArchObstacle.modify, BlockArchObstacle.lift, BlockArchObstacle.reads.
  simpl. rewrite py_getitem_last. simpl.
  unfold BlockArchObstacle.n_components.
  by destruct (DiGraph.append_child _ _ _).
Qed.

Lemma half_inserted_components shape reference self :
  BlockArchObstacle.n_components (Tree.half_inserted shape reference self)
  = S (BlockArchObstacle.n_components self).
Proof.
  unfold BlockArchObstacle.n_components. simpl. rewrite length_app. simpl. lia.
Qed.

(** The loop of [update_obstacles] assigns [shape] and nothing else. *)
Lemma update_zip_pose frame poses obstacles :
  map Obstacle.pose (BlockArchObstacle.update_zip frame poses obstacles)
  = map Obstacle.pose obstacles.
Proof.
  revert obstacles. induction poses as [|local poses IH]; intros [|obs obstacles];
    simpl; try done.
  by rewrite IH.
Qed.

Lemma update_zip_map {A} frame (f : A → Pose) (h : A → Obstacle.t Pose) (l : list A) :
  BlockArchObstacle.update_zip frame (map f l) (map h l)
  = map (fun a => Obstacle.set_shape (transform_pose_from_relative frame (f a)) (h a)) l.
Proof. induction l as [|a l IH]; simpl; [done|]. by rewrite IH. Qed.

End TreeProperties.

(** ** The tree: the invariant of its construction *)

Section TreeInvariant.
Context {Pose : Type} `{!PoseLibrary Pose}.
Implicit Types self : BlockArchObstacle.t Pose.
Implicit Types history : list (Tree.insertion Pose).
Implicit Types g : DiGraph.t Pose.

Lemma graph_of_root (shape : Obstacle.t Pose) new :
  is_Some (DiGraph.indeces_children new) →
  Tree.graph_of [Tree.Insertion shape None None]
    (DiGraph.add_node 0 new DiGraph.empty).
Proof.
  intros Hnew. rewrite add_node_fresh by apply lookup_empty.
  split; simpl.
  - intros z. rewrite lookup_insert_is_Some, lookup_empty.
    split; [intros [<-|[_ []%is_Some_None]]; lia|intros; left; lia].
  - intros z a [[_ <-]|[_ Hz]]%lookup_insert_Some; [done|].
    by rewrite lookup_empty in Hz.
  - intros z. rewrite lookup_insert_is_Some, lookup_empty.
    split; [intros [<-|[_ []%is_Some_None]]; lia|intros; left; lia].
  - intros z. rewrite lookup_insert_is_Some, lookup_empty.
    split; [intros [<-|[_ []%is_Some_None]]; lia|intros; left; lia].
  - intros [|k] ins Hk; [|by destruct k].
    injection Hk as <-. simpl. by rewrite lookup_insert_eq.
  - intros u vs v [[<- <-]|[_ Hu]]%lookup_insert_Some;
      [|by rewrite lookup_empty in Hu].
    split; [by intros ?%elem_of_nil|].
    intros (k & ins & -> & Hk & Hp).
    destruct k as [|[|k]]; [|done..]. injection Hk as <-. done.
Qed.

Lemma graph_of_add history g shape reference parent new :
  Tree.graph_of history g →
  Tree.parents_earlier history →
  (0 <= parent < Z.of_nat (length history))%Z →
  DiGraph.indeces_children new = Some [] →
  let new_id := Z.of_nat (length history) in
  ∃ g1, DiGraph.append_child parent new_id (DiGraph.add_node new_id new g) = Ret g1
        ∧ Tree.graph_of
            (history ++ [Tree.Insertion shape (Some reference) (Some parent)])
            (DiGraph.add_edge parent new_id g1).
Proof.
  intros [Hnode Hchildren Hsucc Hpred Hparent Hchild] Hearlier Hrange Hnew new_id.
  assert (DiGraph._succ g !! new_id = None) as Hfresh.
  { apply eq_None_not_Some. rewrite Hsucc. lia. }
  rewrite add_node_fresh by done.
  destruct (proj2 (Hnode parent) Hrange) as [a Ha].
  destruct (Hchildren _ _ Ha) as [cs Hcs].
  destruct (proj2 (Hsucc parent) Hrange) as [vs0 Hvs0].
  assert (parent ≠ new_id) as Hne by (unfold new_id; lia).
  unfold DiGraph.append_child, DiGraph.nodes_getitem. simpl.
  rewrite lookup_insert_ne, Ha by done. simpl. rewrite Hcs.
  eexists. split; [done|].
  unfold DiGraph.add_edge. simpl.
  rewrite lookup_insert_ne, Hvs0 by done. simpl.
  rewrite lookup_insert_eq. simpl.
  split; simpl.
  - intros z. rewrite length_app. simpl.
    rewrite !lookup_insert_is_Some. rewrite Hnode. unfold new_id. lia.
  - intros z b Hz.
    apply lookup_insert_Some in Hz as [[_ <-]|[_ Hz]]; [done|].
    apply lookup_insert_Some in Hz as [[_ <-]|[_ Hz]]; [by rewrite Hnew|].
    by eapply Hchildren.
  - intros z. rewrite length_app. simpl.
    rewrite lookup_alter_is_Some, lookup_insert_is_Some, Hsucc. unfold new_id. lia.
  - intros z. rewrite length_app. simpl.
    rewrite lookup_alter_is_Some, lookup_insert_is_Some, Hpred. unfold new_id. lia.
  - intros k ins Hk. apply lookup_snoc_Some in Hk as [[Hlt Hk]|[-> <-]].
    + rewrite lookup_alter_ne, lookup_insert_ne by (unfold new_id; lia).
      by apply Hparent.
    + fold new_id. by rewrite lookup_alter_eq, lookup_insert_eq.
  - intros u vs v Hu.
    assert (∀ k ins, history !! k = Some ins → Tree.ins_parent ins ≠ Some new_id)
      as Hnot_new.
    { intros k ins Hk Hp. pose proof (lookup_lt_Some _ _ _ Hk).
      specialize (Hearlier k ins Hk). destruct k as [|k].
      - congruence.
      - destruct Hearlier as (p & Hp' & Hlt). unfold new_id in Hp.
        assert (p = Z.of_nat (length history)) by congruence. lia. }
    rewrite lookup_alter in Hu. destruct (decide (parent = u)) as [<-|Hup].
    + rewrite lookup_insert_ne, Hvs0 in Hu by done. injection Hu as <-.
      rewrite elem_of_adj_set, (Hchild _ _ v Hvs0). split.
      * intros [(k & ins & -> & Hk & Hp)| ->].
        -- exists k, ins. split; [done|]. split; [|done].
           by apply lookup_app_l_Some.
        -- eexists (length history), _. split; [done|].
           split; [apply list_lookup_middle; done|done].
      * intros (k & ins & -> & Hk & Hp).
        apply lookup_snoc_Some in Hk as [[Hlt Hk]|[-> <-]]; [|by right].
        left. by exists k, ins.
    + apply lookup_insert_Some in Hu as [[<- <-]|[Hun Hu]].
      * split; [by intros ?%elem_of_nil|].
        intros (k & ins & -> & Hk & Hp).
        apply lookup_snoc_Some in Hk as [[Hlt Hk]|[-> <-]].
        -- by destruct (Hnot_new _ _ Hk).
        -- simpl in Hp. congruence.
      * rewrite (Hchild _ _ v Hu). split.
        -- intros (k & ins & -> & Hk & Hp). exists k, ins.
           split; [done|]. split; [|done]. by apply lookup_app_l_Some.
        -- intros (k & ins & -> & Hk & Hp).
           apply lookup_snoc_Some in Hk as [[Hlt Hk]|[-> <-]].
           ++ by exists k, ins.
           ++ simpl in Hp. congruence.
Qed.

Lemma invariant_components axes frame history self :
  Tree.invariant axes frame history self →
  BlockArchObstacle.n_components self = length history.
Proof.
  intros Hinv. unfold BlockArchObstacle.n_components.
  by rewrite (Tree.inv_obstacles _ _ _ _ Hinv), length_map.
Qed.

Lemma set_root_invariant axes frame shape :
  Tree.invariant axes frame [Tree.Insertion shape None None]
    (snd (BlockArchObstacle.set_root shape (BlockArchObstacle.blank axes frame))).
Proof.
  rewrite set_root_eq. split; simpl; try done.
  - intros [|k] ins Hk; [|by destruct k]. by injection Hk as <-.
  - by apply graph_of_root.
Qed.

Lemma add_component_invariant axes frame history self shape reference parent :
  Tree.invariant axes frame history self →
  (0 <= parent < Z.of_nat (BlockArchObstacle.n_components self))%Z →
  fst (BlockArchObstacle.add_component shape reference parent self) = Ret tt
  ∧ Tree.invariant axes frame
      (history ++ [Tree.Insertion shape (Some reference) (Some parent)])
      (snd (BlockArchObstacle.add_component shape reference parent self)).
Proof.
  intros Hinv Hrange. pose proof (invariant_components _ _ _ _ Hinv) as Hn.
  destruct Hinv as [Hpose Hroot Hne Hobs Hlocal Hearlier Hgraph].
  rewrite Hn in Hrange.
  destruct (graph_of_add history _ shape reference parent
              {| DiGraph.local_reference := Some reference;
                 DiGraph.indeces_children := Some [];
                 DiGraph.references_children := Some [] |}
              Hgraph Hearlier Hrange eq_refl) as (g1 & Hg1 & Hgraph').
  rewrite add_component_eq. simpl. rewrite Hn, Hg1. simpl.
  split; [done|]. split; simpl; try done.
  - by destruct history.
  - by rewrite Hobs, Hpose, map_app.
  - by rewrite Hlocal, map_app.
  - intros k ins Hk. apply lookup_snoc_Some in Hk as [[Hlt Hk]|[-> <-]].
    + by apply Hearlier.
    + destruct history as [|first history]; [done|]. simpl.
      exists parent. split; [done|]. simpl in Hrange. lia.
Qed.

Lemma built_invariant axes frame history self :
  Tree.built axes frame history self → Tree.invariant axes frame history self.
Proof.
  induction 1 as [shape|history self shape reference parent _ IH Hrange].
  - apply set_root_invariant.
  - by apply add_component_invariant.
Qed.

Lemma history_edge history g u v :
  Tree.graph_of history g →
  Tree.parents_earlier history →
  DiGraph.has_edge u v g
  ↔ ∃ k ins, v = Z.of_nat k ∧ history !! k = Some ins ∧ Tree.ins_parent ins = Some u.
Proof.
  intros Hgraph Hearlier. unfold DiGraph.has_edge. split.
  - intros (vs & Hu & Hv). by apply (Tree.succ_child _ _ Hgraph u vs v Hu).
  - intros (k & ins & -> & Hk & Hp).
    pose proof (lookup_lt_Some _ _ _ Hk) as Hlt.
    assert (0 <= u < Z.of_nat (length history))%Z as Hu.
    { specialize (Hearlier k ins Hk). destruct k as [|k]; [congruence|].
      destruct Hearlier as (p & Hp' & Hrange).
      assert (p = u) by congruence. lia. }
    apply (Tree.succ_dom _ _ Hgraph) in Hu as [vs Hvs].
    exists vs. split; [done|].
    apply (Tree.succ_child _ _ Hgraph u vs _ Hvs). by exists k, ins.
Qed.

Lemma invariant_rooted_tree axes frame history self :
  Tree.invariant axes frame history self →
  Tree.rooted_tree (BlockArchObstacle._graph self)
    (BlockArchObstacle.n_components self).
Proof.
  intros Hinv. rewrite (invariant_components _ _ _ _ Hinv).
  destruct Hinv as [_ _ Hne _ _ Hearlier Hgraph].
  set (g := BlockArchObstacle._graph self) in *.
  assert (∀ u v, DiGraph.has_edge u v g → (u < v)%Z) as Hup.
  { intros u v Huv.
    apply (history_edge history g u v Hgraph Hearlier) in Huv
      as (k & ins & -> & Hk & Hp).
    specialize (Hearlier k ins Hk). destruct k as [|k]; [congruence|].
    destruct Hearlier as (p & Hp' & Hrange).
    assert (p = u) by congruence. lia. }
  assert (∀ k ins, history !! k = Some ins →
            DiGraph.predecessors (Z.of_nat k) g = Ret (Tree.parent_list ins))
    as Hpreds.
  { intros k ins Hk. unfold DiGraph.predecessors.
    by rewrite (Tree.pred_parent _ _ Hgraph k ins Hk). }
  split.
  - apply (Tree.node_dom _ _ Hgraph).
  - destruct history as [|root history]; [done|].
    pose proof (Hpreds 0%nat root eq_refl) as Hroot. change (Z.of_nat 0) with 0%Z in Hroot.
    rewrite Hroot. unfold Tree.parent_list.
    by rewrite (Hearlier 0%nat root eq_refl).
  - intros z Hz.
    destruct (lookup_lt_is_Some_2 history (Z.to_nat z)) as [ins Hk]; [lia|].
    pose proof (Hpreds _ _ Hk) as Hp. rewrite Z2Nat.id in Hp by lia.
    specialize (Hearlier _ _ Hk).
    destruct (Z.to_nat z) as [|k] eqn:Ek; [lia|].
    destruct Hearlier as (p & Hp' & Hrange).
    exists p. unfold Tree.parent_list in Hp. rewrite Hp' in Hp.
    split; [done|]. apply (Tree.node_dom _ _ Hgraph). lia.
  - intros u v. rewrite (history_edge history g u v Hgraph Hearlier). split.
    + intros (k & ins & -> & Hk & Hp). exists (Tree.parent_list ins).
      split; [by apply Hpreds|]. unfold Tree.parent_list. rewrite Hp.
      by apply list_elem_of_singleton.
    + intros (ps & Hps & Hu). unfold DiGraph.predecessors in Hps.
      destruct (DiGraph._pred g !! v) as [ps'|] eqn:Hv; [|done].
      injection Hps as ->.
      assert (0 <= v < Z.of_nat (length history))%Z as Hrange.
      { apply (Tree.pred_dom _ _ Hgraph). by exists ps. }
      destruct (lookup_lt_is_Some_2 history (Z.to_nat v)) as [ins Hk]; [lia|].
      pose proof (Tree.pred_parent _ _ Hgraph _ _ Hk) as Hp.
      rewrite Z2Nat.id in Hp by lia.
      assert (ps = Tree.parent_list ins) as -> by congruence.
      exists (Z.to_nat v), ins. split; [lia|]. split; [done|].
      unfold Tree.parent_list in Hu. destruct (Tree.ins_parent ins) as [p|].
      * apply list_elem_of_singleton in Hu. by subst.
      * by apply elem_of_nil in Hu.
  - intros z Hz%(walk_increasing g Hup). lia.
  - intros z Hz%(Tree.node_dom _ _ Hgraph).
    assert (∀ k : nat, (k < length history)%nat →
              k = 0%nat ∨ DiGraph.walk g 0 (Z.of_nat k)) as Hreach.
    { induction k as [k IH] using lt_wf_ind. intros Hlt.
      destruct (lookup_lt_is_Some_2 history k Hlt) as [ins Hk].
      pose proof (Hearlier _ _ Hk) as Hpar.
      destruct k as [|k]; [by left|]. right.
      destruct Hpar as (p & Hp & Hrange).
      assert (DiGraph.has_edge p (Z.of_nat (S k)) g) as Hedge.
      { apply (history_edge history g _ _ Hgraph Hearlier). by exists (S k), ins. }
      destruct (IH (Z.to_nat p)) as [Hzero|Hwalk]; [lia..| |].
      - replace p with 0%Z in * by lia. by apply DiGraph.walk_edge.
      - rewrite Z2Nat.id in Hwalk by lia. by eapply walk_snoc. }
    destruct (Hreach (Z.to_nat z)) as [Hzero|Hwalk]; [lia| |].
    + left. lia.
    + right. by rewrite Z2Nat.id in Hwalk by lia.
Qed.
(** The constructor needs two entries in [axes_length]; then it returns,
    and what it returns is a built tree of three members. *)
Lemma new_built wall_width axes frame :
  match axes with
  | _ :: _ :: _ =>
      ∃ self history,
        BlockArchObstacle.new wall_width axes frame = Ret self
        ∧ Tree.built axes frame history self
        ∧ length history = 3%nat
  | _ => BlockArchObstacle.new wall_width axes frame = Raise IndexError
  end.
Proof.
  unfold BlockArchObstacle.new, BlockArchObstacle.init.
  destruct axes as [|axes0 [|axes1 rest]];
    unfold BlockArchObstacle.mbind at 1, BlockArchObstacle.lift at 1;
    simpl; [done..|].
  unfold BlockArchObstacle.mbind, BlockArchObstacle.lift, BlockArchObstacle.reads.
  simpl.
  pose proof (Tree.built_root (axes0 :: axes1 :: rest) frame
                (Obstacle.Cuboid [wall_width; axes1]
                   (Pose_unrotated [0%Q; 0%Q]))) as Hroot.
  match goal with
  | |- context [BlockArchObstacle.add_component _ _ 0 ?tree] =>
      set (rooted := tree) in *
  end.
  change (Tree.built (axes0 :: axes1 :: rest) frame
            [Tree.Insertion (Obstacle.Cuboid [wall_width; axes1]
                               (Pose_unrotated [0%Q; 0%Q])) None None]
            rooted) in Hroot.
  clearbody rooted.
  match goal with
  | |- context [BlockArchObstacle.add_component ?shape ?ref 0 rooted] =>
      pose proof (Tree.built_add _ _ _ _ shape ref 0%Z Hroot) as Habove;
      destruct (add_component_invariant _ _ _ _ shape ref 0%Z
                  (built_invariant _ _ _ _ Hroot)) as [Hret _];
      [|destruct (BlockArchObstacle.add_component shape ref 0 rooted)
          as [[[]|e] above] eqn:Eabove; [|simpl in Hret; congruence]]
  end.
  { rewrite (invariant_components _ _ _ _ (built_invariant _ _ _ _ Hroot)). simpl. lia. }
  assert (0 <= 0 < Z.of_nat (BlockArchObstacle.n_components rooted))%Z as Hrange.
  { rewrite (invariant_components _ _ _ _ (built_invariant _ _ _ _ Hroot)). simpl. lia. }
  specialize (Habove Hrange). simpl in Habove.
  match goal with
  | |- context [BlockArchObstacle.add_component ?shape ?ref 0 above] =>
      pose proof (Tree.built_add _ _ _ _ shape ref 0%Z Habove) as Hbelow;
      destruct (add_component_invariant _ _ _ _ shape ref 0%Z
                  (built_invariant _ _ _ _ Habove)) as [Hret' _];
      [|destruct (BlockArchObstacle.add_component shape ref 0 above)
          as [[[]|e] below] eqn:Ebelow; [|simpl in Hret'; congruence]]
  end.
  { rewrite (invariant_components _ _ _ _ (built_invariant _ _ _ _ Habove)). simpl. lia. }
  assert (0 <= 0 < Z.of_nat (BlockArchObstacle.n_components above))%Z as Hrange'.
  { rewrite (invariant_components _ _ _ _ (built_invariant _ _ _ _ Habove)). simpl. lia. }
  specialize (Hbelow Hrange'). simpl in Hbelow.
  eexists _, _. split; [reflexivity|]. split; [exact Hbelow|done].
Qed.
End TreeInvariant.

(** ** The tree: the statements *)

Section TreeClaims.
Context {Pose : Type} `{!PoseLibrary Pose}.
Variable obstacle_get_gamma : Obstacle.t Pose -> Array -> Q.
Variable breakpointhook : outcome unit.
Implicit Types self : BlockArchObstacle.t Pose.
Implicit Types history : list (Tree.insertion Pose).

Abbreviation tree_get_gamma := (BlockArchObstacle.get_gamma obstacle_get_gamma).
Abbreviation get_parent_idx := (BlockArchObstacle.get_parent_idx breakpointhook).

Lemma built_lookup axes frame history self k ins :
  Tree.built axes frame history self →
  history !! k = Some ins →
  BlockArchObstacle.get_component self (Z.of_nat k) = Ret (Tree.stored frame ins)
  ∧ BlockArchObstacle._local_poses self !! k = Some (Tree.local_pose ins)
  ∧ DiGraph.predecessors (Z.of_nat k) (BlockArchObstacle._graph self)
    = Ret (Tree.parent_list ins).
Proof.
  intros Hinv%built_invariant Hk.
  destruct Hinv as [_ _ _ Hobs Hlocal _ Hgraph]. split; [|split].
  - unfold BlockArchObstacle.get_component. apply py_getitem_nonneg; [lia|].
    by rewrite Nat2Z.id, Hobs, list_lookup_fmap, Hk.
  - by rewrite Hlocal, list_lookup_fmap, Hk.
  - unfold DiGraph.predecessors.
    by rewrite (Tree.pred_parent _ _ Hgraph k ins Hk).
Qed.

(** C8: a tree built by one [set_root] and then any number of
    [add_component] calls with a valid parent index is a single rooted
    tree.  Its nodes are the integers [0 .. n-1]; node 0 has no parent and
    every other node has exactly one; the parent lists are the edges; no
    walk returns to its start; every node but the root is reached by a
    walk from the root.  The shape of the k-th insertion sits at index k,
    with its local pose and its parent.  Each of these calls returns
    normally. *)
Theorem built_tree_is_rooted axes frame history self :
  Tree.built axes frame history self →
  Tree.rooted_tree (BlockArchObstacle._graph self)
    (BlockArchObstacle.n_components self)
  ∧ BlockArchObstacle.n_components self = length history
  ∧ (∀ k ins, history !! k = Some ins →
       BlockArchObstacle.get_component self (Z.of_nat k)
       = Ret (Tree.stored frame ins)
       ∧ BlockArchObstacle._local_poses self !! k = Some (Tree.local_pose ins)
       ∧ DiGraph.predecessors (Z.of_nat k) (BlockArchObstacle._graph self)
         = Ret (Tree.parent_list ins))
  ∧ (∀ shape reference parent,
       (0 <= parent < Z.of_nat (BlockArchObstacle.n_components self))%Z →
       fst (BlockArchObstacle.add_component shape reference parent self) = Ret tt).
Proof.
  intros Hbuilt. pose proof (built_invariant _ _ _ _ Hbuilt) as Hinv.
  split; [by eapply invariant_rooted_tree|].
  split; [by eapply invariant_components|]. split.
  - intros k ins Hk. by eapply built_lookup.
  - intros shape reference parent Hrange.
    by eapply add_component_invariant.
Qed.

(** C3, amended: [set_root] checks nothing.  On every tree it returns
    normally, having appended the shape (posed at the tree's pose composed
    with the shape's own) and its local pose, so the tree has one member
    more.  On a tree that was built before, adding node 0 again leaves the
    set of nodes and all edges as they were and empties the list of
    children kept at node 0. *)
Theorem set_root_has_no_guard shape self :
  let run := BlockArchObstacle.set_root shape self in
  fst run = Ret tt
  ∧ BlockArchObstacle._obstacle_list (snd run)
    = BlockArchObstacle._obstacle_list self
        ++ [Tree.stored (BlockArchObstacle.pose self) (Tree.Insertion shape None None)]
  ∧ BlockArchObstacle._local_poses (snd run)
    = BlockArchObstacle._local_poses self ++ [Obstacle.pose shape]
  ∧ BlockArchObstacle.n_components (snd run)
    = S (BlockArchObstacle.n_components self)
  ∧ (∀ axes frame history, Tree.built axes frame history self →
       let g := BlockArchObstacle._graph self in
       let g' := BlockArchObstacle._graph (snd run) in
       (∀ z, DiGraph.has_node z g' ↔ DiGraph.has_node z g)
       ∧ DiGraph._succ g' = DiGraph._succ g
       ∧ DiGraph._pred g' = DiGraph._pred g
       ∧ ∃ a, DiGraph.nodes_getitem 0 g' = Ret a
              ∧ DiGraph.indeces_children a = Some []).
Proof.
  intros run. subst run. rewrite set_root_eq. simpl.
  split; [done|]. split; [done|]. split; [done|]. split.
  - unfold BlockArchObstacle.n_components. simpl. rewrite length_app. simpl. lia.
  - intros axes frame history Hinv%built_invariant.
    destruct Hinv as [_ _ Hne _ _ _ Hgraph].
    assert (0 <= 0 < Z.of_nat (length history))%Z as Hzero.
    { destruct history; [done|]. simpl. lia. }
    pose proof (proj2 (Tree.succ_dom _ _ Hgraph 0%Z) Hzero) as Hsucc.
    destruct (proj2 (Tree.node_dom _ _ Hgraph 0%Z) Hzero) as [a Ha].
    destruct (add_node_again 0
                {| DiGraph.local_reference := None;
                   DiGraph.indeces_children := Some [];
                   DiGraph.references_children := Some [] |}
                _ Hsucc) as (Hs & Hp & Hn & Hattrs).
    split; [done|]. split; [done|]. split; [done|].
    unfold DiGraph.nodes_getitem. rewrite Hattrs, Ha. simpl. by eexists.
Qed.

(** C4, amended: on a built tree [get_parent_idx] returns [None] for the
    root and the one predecessor for every other valid index.  For an
    index that names no node nothing is raised to the caller: the lookup
    error is caught, [breakpoint()] runs, and the call returns [None] when
    the hook returns.  [get_component] raises [IndexError] for an index at
    or above the number of members or below its negation; an index from
    [-n] to [-1] is not refused: it yields the member at [n + idx]. *)
Theorem parent_and_component_lookup axes frame history self :
  Tree.built axes frame history self →
  let n := Z.of_nat (BlockArchObstacle.n_components self) in
  get_parent_idx self 0 = ([], Ret None)
  ∧ (∀ idx, (0 < idx < n)%Z →
       ∃ p, DiGraph.predecessors idx (BlockArchObstacle._graph self) = Ret [p]
            ∧ get_parent_idx self idx = ([], Ret (Some p)))
  ∧ (∀ idx, ¬ (0 <= idx < n)%Z →
       get_parent_idx self idx
       = ([BlockArchObstacle.EnteredDebugger],
          obind breakpointhook (fun _ => Ret None)))
  ∧ (∀ idx, (n <= idx ∨ idx < - n)%Z →
       BlockArchObstacle.get_component self idx = Raise IndexError)
  ∧ (∀ idx, (- n <= idx < 0)%Z →
       BlockArchObstacle.get_component self idx
       = BlockArchObstacle.get_component self (n + idx)
       ∧ returns (BlockArchObstacle.get_component self idx) = true).
Proof.
  intros Hbuilt n. pose proof (built_invariant _ _ _ _ Hbuilt) as Hinv.
  pose proof (invariant_rooted_tree _ _ _ _ Hinv) as Htree.
  pose proof (Tree.inv_root _ _ _ _ Hinv) as Hroot.
  assert (0 < n)%Z as Hpos.
  { subst n. rewrite (invariant_components _ _ _ _ Hinv).
    pose proof (Tree.inv_nonempty _ _ _ _ Hinv). destruct history; [done|].
    simpl. lia. }
  unfold BlockArchObstacle.get_parent_idx.
  split; [|split; [|split; [|split]]].
  - rewrite Hroot. by rewrite decide_True.
  - intros idx Hidx. rewrite Hroot, decide_False by lia.
    destruct (Tree.one_parent _ _ Htree idx Hidx) as (p & Hp & _).
    exists p. split; [done|]. by rewrite Hp.
  - intros idx Hidx. rewrite Hroot, decide_False by lia.
    unfold DiGraph.predecessors.
    destruct (DiGraph._pred (BlockArchObstacle._graph self) !! idx) eqn:E; [|done].
    exfalso. apply Hidx. subst n.
    rewrite (invariant_components _ _ _ _ Hinv).
    apply (Tree.pred_dom _ _ (Tree.inv_graph _ _ _ _ Hinv)). by eexists.
  - intros idx Hidx. by apply py_getitem_out_of_range.
  - intros idx Hidx. by apply py_getitem_negative.
Qed.

(** C5, amended: when [parent_ind] names no node of the graph and is not
    the number of members [n], [add_component] raises [KeyError] at the
    lookup of the parent, and the tree keeps what the call had done by
    then: the shape, its local pose and the graph node [n] are in, so the
    tree has one member more.  When [parent_ind] is [n] itself, on a built
    tree, the call returns normally and the new node is its own parent. *)
Theorem add_component_unknown_parent shape reference parent self :
  ¬ DiGraph.has_node parent (BlockArchObstacle._graph self) →
  let n := Z.of_nat (BlockArchObstacle.n_components self) in
  let run := BlockArchObstacle.add_component shape reference parent self in
  (parent ≠ n →
     run = (Raise KeyError, Tree.half_inserted shape reference self)
     ∧ BlockArchObstacle.n_components (snd run)
       = S (BlockArchObstacle.n_components self))
  ∧ (parent = n →
     ∀ axes frame history, Tree.built axes frame history self →
       fst run = Ret tt
       ∧ BlockArchObstacle.n_components (snd run)
         = S (BlockArchObstacle.n_components self)
       ∧ DiGraph.has_edge n n (BlockArchObstacle._graph (snd run))).
Proof.
  intros Habsent n run. subst run. rewrite add_component_eq. fold n.
  apply eq_None_not_Some in Habsent.
  split.
  - intros Hne. unfold DiGraph.append_child, DiGraph.nodes_getitem. simpl.
    rewrite add_node_lookup_other, Habsent by done. simpl.
    split; [done|]. apply half_inserted_components.
  - intros -> axes frame history Hinv%built_invariant.
    pose proof (invariant_components _ _ _ _ Hinv) as Hn.
    assert (DiGraph._succ (BlockArchObstacle._graph self) !! n = None) as Hfresh.
    { apply eq_None_not_Some.
      rewrite (Tree.succ_dom _ _ (Tree.inv_graph _ _ _ _ Hinv)). lia. }
    simpl. fold n. rewrite add_node_fresh by done.
    unfold DiGraph.append_child, DiGraph.nodes_getitem. simpl.
    rewrite lookup_insert_eq. simpl.
    split; [done|]. split.
    { unfold BlockArchObstacle.n_components. simpl. rewrite length_app. simpl. lia. }
    unfold DiGraph.has_edge, DiGraph.add_edge. simpl.
    rewrite lookup_insert_eq. simpl. rewrite lookup_insert_eq. simpl.
    rewrite lookup_alter_eq, lookup_insert_eq. simpl.
    eexists. split; [done|]. apply elem_of_adj_set. by right.
Qed.

Lemma update_obstacles_eq delta_time self :
  BlockArchObstacle.update_obstacles delta_time self
  = (Ret tt,
     BlockArchObstacle.with_obstacle_list
       (BlockArchObstacle.update_zip (BlockArchObstacle.pose self)
          (BlockArchObstacle._local_poses self)
          (BlockArchObstacle._obstacle_list self)) self).
Proof. done. Qed.

(** [update_obstacles] returns, and leaves the tree's pose, its recorded
    local poses and the [pose] of every member as they were. *)
Lemma update_obstacles_keeps_pose delta_time self :
  let run := BlockArchObstacle.update_obstacles delta_time self in
  fst run = Ret tt
  ∧ BlockArchObstacle.pose (snd run) = BlockArchObstacle.pose self
  ∧ BlockArchObstacle._local_poses (snd run) = BlockArchObstacle._local_poses self
  ∧ map Obstacle.pose (BlockArchObstacle._obstacle_list (snd run))
    = map Obstacle.pose (BlockArchObstacle._obstacle_list self).
Proof.
  intros run. subst run. rewrite update_obstacles_eq. simpl.
  split; [done|]. split; [done|]. split; [done|]. apply update_zip_pose.
Qed.

(** The members of a built tree after its pose is set to [moved] and
    [update_obstacles] has run: the product of the new pose and the local
    pose is in [shape]; [pose] is the one of the insertion. *)
Lemma update_obstacles_after_move axes frame history self moved delta_time :
  Tree.built axes frame history self →
  BlockArchObstacle._obstacle_list
    (snd (BlockArchObstacle.update_obstacles delta_time
            (BlockArchObstacle.set_pose moved self)))
  = map (fun ins =>
           Obstacle.set_shape
             (transform_pose_from_relative moved (Tree.local_pose ins))
             (Tree.stored frame ins)) history.
Proof.
  intros Hinv%built_invariant. rewrite update_obstacles_eq. simpl.
  rewrite (Tree.inv_obstacles _ _ _ _ Hinv), (Tree.inv_local _ _ _ _ Hinv).
  apply update_zip_map.
Qed.

(** C2: in the global frame, [get_gamma] of a tree with at least one
    member returns the minimum of the members' gamma values at the
    position, and [get_gamma] of a container with at least one tree (each
    with at least one member) returns the minimum of the values its trees
    return. *)
Theorem gamma_is_minimum_over_members :
  (∀ self position,
     (1 <= BlockArchObstacle.n_components self)%nat →
     ∃ m, tree_get_gamma self position true = Ret m
          ∧ is_minimum_of m
              (map (fun obs => obstacle_get_gamma obs position)
                   (BlockArchObstacle._obstacle_list self)))
  ∧ (∀ (container : MultiObstacleContainer.t (BlockArchObstacle.t Pose)) position,
       let trees := MultiObstacleContainer._obstacle_list container in
       (1 <= MultiObstacleContainer.len container)%nat →
       Forall (fun tree => (1 <= BlockArchObstacle.n_components tree)%nat) trees →
       ∃ m gs,
         MultiObstacleContainer.get_gamma
           (fun tree position => tree_get_gamma tree position true)
           container position true = Ret m
         ∧ Forall2 (fun tree g => tree_get_gamma tree position true = Ret g)
                   trees gs
         ∧ is_minimum_of m gs).
Proof.
  split; [apply tree_get_gamma_minimum|].
  intros container position trees Hlen Hmembers.
  assert (∃ gs, Forall2 (fun tree g => tree_get_gamma tree position true = Ret g)
                        trees gs) as [gs Hgs].
  { induction Hmembers as [|tree rest Htree _ [gs IH]]; [by exists []|].
    destruct (tree_get_gamma_minimum obstacle_get_gamma tree position Htree)
      as (g & Hg & _).
    exists (g :: gs). by constructor. }
  assert (MultiObstacleContainer._obstacle_list container ≠ []) as Hne.
  { unfold MultiObstacleContainer.len in Hlen. intros Hnil.
    rewrite Hnil in Hlen. simpl in Hlen. lia. }
  destruct (container_get_gamma_minimum
              (fun tree position => tree_get_gamma tree position true)
              container position gs Hne Hgs) as (m & Hm & Hmin).
  by exists m, gs.
Qed.

End TreeClaims.

(** ** The arch of the tests *)

Section Arch.
Import Examples.
Local Open Scope Q_scope.

Lemma arch_eq :
  arch = snd (BlockArchObstacle.add_component leg_below [-13 # 10; 0] 0
           (snd (BlockArchObstacle.add_component leg_above [-13 # 10; 0] 0
              (snd (BlockArchObstacle.set_root root_shape
                      (BlockArchObstacle.blank [3; 5] origin)))))).
Proof. vm_compute. reflexivity. Qed.

(** The constructor returns normally and what it builds is a built tree. *)
Lemma arch_new : BlockArchObstacle.new (2 # 5) [3; 5] origin = Ret arch.
Proof. vm_compute. reflexivity. Qed.

Lemma arch_built : Tree.built [3; 5] origin arch_history arch.
Proof.
  rewrite arch_eq.
  change arch_history with
    (([Tree.Insertion root_shape None None]
        ++ [Tree.Insertion leg_above (Some [-13 # 10; 0]) (Some 0%Z)])
       ++ [Tree.Insertion leg_below (Some [-13 # 10; 0]) (Some 0%Z)]).
  apply Tree.built_add; [apply Tree.built_add; [apply Tree.built_root|]|].
  - vm_compute. split; [discriminate|reflexivity].
  - vm_compute. split; [discriminate|reflexivity].
Qed.

Lemma arch_components : BlockArchObstacle.n_components arch = 3%nat.
Proof. vm_compute. reflexivity. Qed.

Lemma arch_no_node (z : Z) :
  (3 <= z)%Z → ¬ DiGraph.has_node z (BlockArchObstacle._graph arch).
Proof.
  intros Hz Hnode.
  pose proof (invariant_rooted_tree _ _ _ _ (built_invariant _ _ _ _ arch_built))
    as Htree.
  apply (Tree.dense _ _ Htree) in Hnode. rewrite arch_components in Hnode. lia.
Qed.

(** C1: evaluated on the arch of the tests.  The tree's pose is set to
    [moved] and [update_obstacles] runs; it returns normally, and the
    member at index 1 still has the pose of its insertion, the frame of
    that time composed with its local pose, which is not [moved] composed
    with its local pose.  That product is in the attribute [shape], which
    the loop assigns in place of [pose]. *)
Theorem update_obstacles_leaves_pose_stale :
  let tree := BlockArchObstacle.set_pose moved arch in
  let run := BlockArchObstacle.update_obstacles 0 tree in
  fst run = Ret tt
  ∧ BlockArchObstacle.pose (snd run) = moved
  ∧ ∃ member local,
      BlockArchObstacle.get_component (snd run) 1 = Ret member
      ∧ BlockArchObstacle._local_poses (snd run) !! 1%nat = Some local
      ∧ Obstacle.pose member = transform_pose_from_relative origin local
      ∧ Obstacle.pose member ≠ transform_pose_from_relative moved local
      ∧ Obstacle.shape member = Some (transform_pose_from_relative moved local).
Proof.
  split; [reflexivity|]. split; [reflexivity|].
  eexists _, _. split; [vm_compute; reflexivity|].
  split; [vm_compute; reflexivity|].
  split; [vm_compute; reflexivity|]. split; [|vm_compute; reflexivity].
  vm_compute. discriminate.
Qed.

End Arch.

(** ** The statements at concrete inputs *)

Section Instances.
Import Examples.
Local Open Scope Q_scope.

(** C2 at the arch and at the container of two arches, queried at
    [outside]. *)
Lemma gamma_is_minimum_over_members_witness :
  (∃ m, BlockArchObstacle.get_gamma GridPose.gamma arch outside true = Ret m
        ∧ is_minimum_of m
            (map (fun obs => GridPose.gamma obs outside)
                 (BlockArchObstacle._obstacle_list arch)))
  ∧ (∃ m gs,
       MultiObstacleContainer.get_gamma
         (fun tree position =>
            BlockArchObstacle.get_gamma GridPose.gamma tree position true)
         two_arches outside true = Ret m
       ∧ Forall2 (fun tree g =>
                    BlockArchObstacle.get_gamma GridPose.gamma tree outside true
                    = Ret g)
                 (MultiObstacleContainer._obstacle_list two_arches) gs
       ∧ is_minimum_of m gs).
Proof.
  destruct (gamma_is_minimum_over_members GridPose.gamma) as [Htree Hcontainer].
  split.
  - apply Htree. vm_compute. lia.
  - apply Hcontainer.
    + vm_compute. lia.
    + repeat constructor; vm_compute; lia.
Defined.

(** C3: on the arch, which has three members, [set_root] returns normally
    and leaves a tree of four members. *)
Lemma set_root_on_arch_returns :
  BlockArchObstacle.n_components arch = 3%nat
  ∧ fst (BlockArchObstacle.set_root block arch) = Ret tt
  ∧ BlockArchObstacle.n_components (snd (BlockArchObstacle.set_root block arch))
    = 4%nat.
Proof. vm_compute. repeat split; reflexivity. Qed.

Lemma set_root_has_no_guard_witness :
  Tree.built [3; 5] origin arch_history arch
  ∧ DiGraph._succ (BlockArchObstacle._graph
                     (snd (BlockArchObstacle.set_root block arch)))
    = DiGraph._succ (BlockArchObstacle._graph arch)
  ∧ DiGraph._pred (BlockArchObstacle._graph
                     (snd (BlockArchObstacle.set_root block arch)))
    = DiGraph._pred (BlockArchObstacle._graph arch).
Proof.
  split; [apply arch_built|].
  destruct (set_root_has_no_guard block arch) as (_ & _ & _ & _ & Hgraph).
  destruct (Hgraph _ _ _ arch_built) as (_ & Hsucc & Hpred & _).
  split; [exact Hsucc|exact Hpred].
Defined.

(** C4: on the arch the index -1, which names no node, is answered with
    the member at index 2; and with a hook that returns, the parent of the
    index 7 is reported as [None], as for the root. *)
Lemma out_of_range_lookups_answer :
  BlockArchObstacle.n_components arch = 3%nat
  ∧ BlockArchObstacle.get_component arch (-1)
    = Ret (Tree.stored origin (Tree.Insertion leg_below (Some [-13 # 10; 0]) (Some 0%Z)))
  ∧ BlockArchObstacle.get_parent_idx (Ret tt) arch 7
    = ([BlockArchObstacle.EnteredDebugger], Ret None).
Proof. vm_compute. repeat split; reflexivity. Qed.

Lemma parent_and_component_lookup_witness :
  Tree.built [3; 5] origin arch_history arch
  ∧ BlockArchObstacle.get_parent_idx (Ret tt) arch 0 = ([], Ret None)
  ∧ (∃ p, DiGraph.predecessors 2 (BlockArchObstacle._graph arch) = Ret [p]
          ∧ BlockArchObstacle.get_parent_idx (Ret tt) arch 2 = ([], Ret (Some p)))
  ∧ BlockArchObstacle.get_parent_idx (Ret tt) arch 7
    = ([BlockArchObstacle.EnteredDebugger], Ret None)
  ∧ BlockArchObstacle.get_component arch 3 = Raise IndexError
  ∧ BlockArchObstacle.get_component arch (-1)
    = BlockArchObstacle.get_component arch 2.
Proof.
  split; [apply arch_built|].
  destruct (parent_and_component_lookup (Ret tt) _ _ _ _ arch_built)
    as (Hroot & Hparent & Hunknown & Hrange & Hnegative).
  rewrite arch_components in Hparent, Hunknown, Hrange, Hnegative.
  split; [exact Hroot|]. split; [apply Hparent; lia|].
  split; [apply Hunknown; lia|]. split; [apply Hrange; lia|].
  apply (Hnegative (-1)%Z). lia.
Defined.

(** C5: on the arch, [add_component] with the parent index 7 raises
    [KeyError] and leaves a tree that is not the one before the call: it
    has four members. *)
Lemma failed_add_component_changes_tree :
  let run := BlockArchObstacle.add_component block [0; 0] 7 arch in
  ¬ DiGraph.has_node 7 (BlockArchObstacle._graph arch)
  ∧ fst run = Raise KeyError
  ∧ BlockArchObstacle.n_components arch = 3%nat
  ∧ BlockArchObstacle.n_components (snd run) = 4%nat
  ∧ snd run ≠ arch.
Proof.
  split; [apply arch_no_node; lia|].
  split; [vm_compute; reflexivity|]. split; [vm_compute; reflexivity|].
  split; [vm_compute; reflexivity|].
  intros Heq. apply (f_equal BlockArchObstacle.n_components) in Heq.
  vm_compute in Heq. discriminate.
Qed.

Lemma add_component_unknown_parent_witness :
  let run7 := BlockArchObstacle.add_component block [0; 0] 7 arch in
  let run3 := BlockArchObstacle.add_component block [0; 0] 3 arch in
  ¬ DiGraph.has_node 7 (BlockArchObstacle._graph arch)
  ∧ run7 = (Raise KeyError, Tree.half_inserted block [0; 0] arch)
  ∧ ¬ DiGraph.has_node 3 (BlockArchObstacle._graph arch)
  ∧ fst run3 = Ret tt
  ∧ DiGraph.has_edge 3 3 (BlockArchObstacle._graph (snd run3)).
Proof.
  intros run7 run3.
  split; [apply arch_no_node; lia|]. split.
  - destruct (add_component_unknown_parent block [0; 0] 7 arch) as [Hfails _].
    + apply arch_no_node. lia.
    + rewrite arch_components in Hfails. apply Hfails. lia.
  - split; [apply arch_no_node; lia|].
    destruct (add_component_unknown_parent block [0; 0] 3 arch) as [_ Hloop].
    + apply arch_no_node. lia.
    + rewrite arch_components in Hloop.
      destruct (Hloop eq_refl _ _ _ arch_built) as (Hret & _ & Hedge).
      split; [exact Hret|exact Hedge].
Defined.


(** C7 with test doubles: the first reports free, the second occupied;
    the third is not queried. *)
Lemma container_free_space_and_fold_witness :
  MultiObstacleContainer._obstacle_list doubles = [true] ++ false :: [true]
  ∧ Forall (fun tree => canned_free tree outside = Ret true) [true]
  ∧ canned_free false outside = Ret false
  ∧ MultiObstacleContainer.is_in_free_space canned_free doubles outside true
    = ([true] ++ [false], Ret false).
Proof.
  assert (Forall (fun tree => canned_free tree outside = Ret true) [true])
    as Hbefore by (repeat constructor).
  split; [reflexivity|]. split; [exact Hbefore|]. split; [reflexivity|].
  destruct (container_free_space_and_fold canned_free doubles outside)
    as (_ & _ & _ & Hstops).
  exact (Hstops [true] false [true] eq_refl Hbefore eq_refl).
Defined.

(** C8 at the arch. *)
Lemma built_tree_is_rooted_witness :
  Tree.built [3; 5] origin arch_history arch
  ∧ Tree.rooted_tree (BlockArchObstacle._graph arch)
      (BlockArchObstacle.n_components arch)
  ∧ BlockArchObstacle.n_components arch = length arch_history.
Proof.
  split; [apply arch_built|].
  destruct (built_tree_is_rooted _ _ _ _ arch_built) as (Htree & Hn & _).
  split; [exact Htree|exact Hn].
Defined.

End Instances.

(** * Further properties *)

(** ** The container: composition and errors *)

Lemma min_from_snoc current items g :
  min_from current (items ++ [g])
  = (if Qle_bool (min_from current items) g
     then min_from current items else g).
Proof.
  revert current. induction items as [|item rest IH]; intros current; [done|].
  simpl. apply IH.
Qed.

Lemma py_min_snoc items g m :
  py_min items = Ret m →
  py_min (items ++ [g]) = Ret (if Qle_bool m g then m else g).
Proof.
  destruct items as [|item rest]; [done|]. simpl. intros [= <-].
  by rewrite min_from_snoc.
Qed.

Lemma Qle_bool_min_le m g : ((if Qle_bool m g then m else g) <= m)%Q.
Proof.
  destruct (Qle_bool m g) eqn:E; [apply Qle_refl|].
  destruct (Qlt_le_dec g m) as [Hlt|Hle]; [by apply Qlt_le_weak|].
  apply Qle_bool_iff in Hle. congruence.
Qed.

Section ContainerComposition.
Context {T : Type}.
Variable member_get_gamma : T -> Array -> outcome Q.
Variable member_is_in_free_space : T -> Array -> outcome bool.

Lemma container_of_from (trees : list T) (self : MultiObstacleContainer.t T) :
  MultiObstacleContainer._obstacle_list
    (fold_left (fun self tree => MultiObstacleContainer.append tree self)
       trees self)
  = MultiObstacleContainer._obstacle_list self ++ trees.
Proof.
  revert self. induction trees as [|tree trees IH]; intros self; simpl.
  - by rewrite app_nil_r.
  - rewrite IH. simpl. by rewrite <- app_assoc.
Qed.

(** A container filled by [append] calls iterates over its trees in the
    order of the calls, and [len] counts them; one more [append] puts the
    tree last. *)
Theorem container_iterates_in_append_order (trees : list T) (tree : T) :
  container_iter (container_of trees) = trees
  ∧ MultiObstacleContainer.len (container_of trees) = length trees
  ∧ container_iter (MultiObstacleContainer.append tree (container_of trees))
    = trees ++ [tree]
  ∧ MultiObstacleContainer.len
      (MultiObstacleContainer.append tree (container_of trees))
    = S (length trees).
Proof.
  assert (container_iter (container_of trees) = trees) as Hiter.
  { unfold container_iter, container_of. by rewrite container_of_from. }
  unfold MultiObstacleContainer.len, container_iter in *. simpl.
  rewrite Hiter, length_app. simpl. repeat split; lia.
Qed.

Lemma fill_gammas_app before after position :
  MultiObstacleContainer.fill_gammas member_get_gamma (before ++ after) position
  = obind (MultiObstacleContainer.fill_gammas member_get_gamma before position)
      (fun gs =>
       obind (MultiObstacleContainer.fill_gammas member_get_gamma after position)
         (fun gs' => Ret (gs ++ gs'))).
Proof.
  induction before as [|tree before IH]; simpl.
  - by destruct (MultiObstacleContainer.fill_gammas _ after position).
  - destruct (member_get_gamma tree position) as [g|e]; [|done]. simpl.
    rewrite IH.
    destruct (MultiObstacleContainer.fill_gammas _ before position); [|done].
    simpl.
    by destruct (MultiObstacleContainer.fill_gammas _ after position).
Qed.

(** Appending a tree to a container whose gamma at a position is [m]
    gives a container whose gamma there is the smaller of [m] and the
    gamma of the new tree: an appended tree never raises the value. *)
Theorem container_gamma_after_append self tree position m g :
  MultiObstacleContainer.get_gamma member_get_gamma self position true = Ret m →
  member_get_gamma tree position = Ret g →
  MultiObstacleContainer.get_gamma member_get_gamma
    (MultiObstacleContainer.append tree self) position true
  = Ret (if Qle_bool m g then m else g)
  ∧ ((if Qle_bool m g then m else g) <= m)%Q
  ∧ ((if Qle_bool m g then m else g) <= g)%Q.
Proof.
  unfold MultiObstacleContainer.get_gamma. simpl. intros Hm Hg.
  rewrite fill_gammas_app. simpl. rewrite Hg.
  destruct (MultiObstacleContainer.fill_gammas _ _ position) as [gs|e];
    [|done].
  simpl in *. split; [by apply py_min_snoc|]. split; [apply Qle_bool_min_le|].
  destruct (Qle_bool m g) eqn:E; [by apply Qle_bool_iff|apply Qle_refl].
Qed.

(** The gamma of a container of one tree is that tree's, exceptions
    included. *)
Theorem container_gamma_of_single tree position :
  MultiObstacleContainer.get_gamma member_get_gamma
    (MultiObstacleContainer.append tree
       {| MultiObstacleContainer._obstacle_list := [] |}) position true
  = member_get_gamma tree position.
Proof.
  unfold MultiObstacleContainer.get_gamma. simpl.
  by destruct (member_get_gamma tree position).
Qed.

(** [get_gamma] of a container passes on the exception of the first of
    its trees that raises, whatever the trees behind it would answer. *)
Theorem container_gamma_propagates self position before tree after e :
  MultiObstacleContainer._obstacle_list self = before ++ tree :: after →
  Forall (fun tree => returns (member_get_gamma tree position) = true) before →
  member_get_gamma tree position = Raise e →
  MultiObstacleContainer.get_gamma member_get_gamma self position true = Raise e.
Proof.
  unfold MultiObstacleContainer.get_gamma. simpl. intros -> Hbefore Hraise.
  rewrite fill_gammas_app.
  assert (∃ gs, MultiObstacleContainer.fill_gammas member_get_gamma before
                  position = Ret gs) as [gs ->].
  { induction Hbefore as [|first before Hfirst _ [gs IH]]; [by exists []|].
    simpl. destruct (member_get_gamma first position) as [g|]; [|done].
    rewrite IH. by eexists. }
  simpl. by rewrite Hraise.
Qed.

(** [is_in_free_space] of a container passes on the exception of a tree
    that raises when all trees before it report free; the trees behind it
    are not queried. *)
Theorem container_free_space_propagates self position before tree after e :
  MultiObstacleContainer._obstacle_list self = before ++ tree :: after →
  Forall (fun tree => member_is_in_free_space tree position = Ret true) before →
  member_is_in_free_space tree position = Raise e →
  MultiObstacleContainer.is_in_free_space member_is_in_free_space self
    position true
  = (before ++ [tree], Raise e).
Proof.
  unfold MultiObstacleContainer.is_in_free_space. simpl. intros -> Hbefore Hraise.
  rewrite free_loop_stops by (done || congruence). by rewrite Hraise.
Qed.
End ContainerComposition.

(** [BlockArchObstacle] has no [is_in_free_space]: on a container that
    holds such trees, [is_in_free_space] raises [AttributeError] at the
    first tree, for every position. *)
Theorem container_of_arches_has_no_free_space {Pose : Type}
    (self : MultiObstacleContainer.t (BlockArchObstacle.t Pose)) position :
  (1 <= MultiObstacleContainer.len self)%nat →
  ∃ first,
    head (MultiObstacleContainer._obstacle_list self) = Some first
    ∧ MultiObstacleContainer.is_in_free_space block_arch_is_in_free_space
        self position true
      = ([first], Raise AttributeError).
Proof.
  unfold MultiObstacleContainer.len, MultiObstacleContainer.is_in_free_space.
  destruct (MultiObstacleContainer._obstacle_list self) as [|first rest];
    simpl; [lia|].
  intros _. by exists first.
Qed.

(** ** The tree: bookkeeping, insertion and update *)

Section TreeBookkeeping.
Context {Pose : Type} `{!PoseLibrary Pose}.
Variable obstacle_get_gamma : Obstacle.t Pose -> Array -> Q.
Variable breakpointhook : outcome unit.
Implicit Types self : BlockArchObstacle.t Pose.
Implicit Types history : list (Tree.insertion Pose).
Implicit Types g : DiGraph.t Pose.

Lemma children_from_app k history history' u :
  Arch.children_from k (history ++ history') u
  = Arch.children_from k history u
      ++ Arch.children_from (k + length history) history' u.
Proof.
  revert k. induction history as [|ins history IH]; intros k; simpl.
  - by rewrite Nat.add_0_r.
  - rewrite IH, <- app_assoc. do 3 f_equal. lia.
Qed.

Lemma children_of_snoc history ins u :
  Arch.children_of (history ++ [ins]) u
  = Arch.children_of history u
      ++ (if decide (Tree.ins_parent ins = Some u)
          then [Z.of_nat (length history)] else []).
Proof.
  unfold Arch.children_of. rewrite children_from_app. simpl.
  by rewrite app_nil_r.
Qed.

Lemma elem_of_children_from k history u v :
  v ∈ Arch.children_from k history u
  ↔ ∃ j ins, v = Z.of_nat (k + j) ∧ history !! j = Some ins
             ∧ Tree.ins_parent ins = Some u.
Proof.
  revert k. induction history as [|first history IH]; intros k; simpl.
  - split; [by intros ?%elem_of_nil|]. by intros (j & ins & _ & Hj & _).
  - rewrite elem_of_app, IH. split.
    + intros [Hv|(j & ins & -> & Hj & Hp)].
      * destruct (decide (Tree.ins_parent first = Some u)) as [Hp|];
          [|by apply elem_of_nil in Hv].
        apply list_elem_of_singleton in Hv as ->.
        exists 0%nat, first. split; [f_equal; lia|done].
      * exists (S j), ins. split; [f_equal; lia|done].
    + intros ([|j] & ins & -> & Hj & Hp).
      * left. injection Hj as ->. rewrite decide_True by done.
        apply list_elem_of_singleton. f_equal. lia.
      * right. exists j, ins. split; [f_equal; lia|done].
Qed.

Lemma elem_of_children_of history u v :
  v ∈ Arch.children_of history u
  ↔ ∃ k ins, v = Z.of_nat k ∧ history !! k = Some ins
             ∧ Tree.ins_parent ins = Some u.
Proof. apply elem_of_children_from. Qed.

Lemma children_of_none history u :
  Tree.parents_earlier history →
  (Z.of_nat (length history) <= u)%Z →
  Arch.children_of history u = [].
Proof.
  intros Hearlier Hu. apply elem_of_nil_inv. intros v Hv.
  apply elem_of_children_of in Hv as (k & ins & -> & Hk & Hp).
  pose proof (lookup_lt_Some _ _ _ Hk). specialize (Hearlier k ins Hk).
  destruct k as [|k]; [congruence|].
  destruct Hearlier as (p & Hp' & Hrange).
  assert (p = u) by congruence. lia.
Qed.

Lemma add_component_graph axes frame history self shape reference parent a cs :
  Tree.invariant axes frame history self →
  (0 <= parent < Z.of_nat (length history))%Z →
  DiGraph._node (BlockArchObstacle._graph self) !! parent = Some a →
  DiGraph.indeces_children a = Some cs →
  let g := BlockArchObstacle._graph self in
  let n := Z.of_nat (length history) in
  BlockArchObstacle._graph
    (snd (BlockArchObstacle.add_component shape reference parent self))
  = {| DiGraph._node :=
         <[parent := {| DiGraph.local_reference := DiGraph.local_reference a;
                        DiGraph.indeces_children := Some (cs ++ [n]);
                        DiGraph.references_children :=
                          DiGraph.references_children a |}]>
           (<[n := {| DiGraph.local_reference := Some reference;
                      DiGraph.indeces_children := Some [];
                      DiGraph.references_children := Some [] |}]>
              (DiGraph._node g));
       DiGraph._succ := alter (DiGraph.adj_set n) parent
                          (<[n := []]> (DiGraph._succ g));
       DiGraph._pred := alter (DiGraph.adj_set parent) n
                          (<[n := []]> (DiGraph._pred g)) |}.
Proof.
  intros Hinv Hrange Ha Hcs g n. subst g.
  pose proof (invariant_components _ _ _ _ Hinv) as Hn.
  pose proof (Tree.inv_graph _ _ _ _ Hinv) as Hgraph.
  assert (DiGraph._succ (BlockArchObstacle._graph self) !! n = None) as Hfresh.
  { apply eq_None_not_Some. intros Hs.
    apply (Tree.succ_dom _ _ Hgraph) in Hs. unfold n in Hs. lia. }
  destruct (proj2 (Tree.succ_dom _ _ Hgraph parent) Hrange) as [vs Hvs].
  assert (parent ≠ n) as Hne by (unfold n; lia).
  rewrite add_component_eq. simpl. rewrite Hn. fold n.
  rewrite add_node_fresh by done.
  unfold DiGraph.append_child, DiGraph.nodes_getitem. simpl.
  rewrite lookup_insert_ne, Ha by done. simpl. rewrite Hcs. simpl.
  unfold DiGraph.add_edge. simpl.
  rewrite lookup_insert_ne, Hvs by done. simpl.
  rewrite lookup_insert_eq. done.
Qed.

Lemma bookkeeping_root (shape : Obstacle.t Pose) :
  Arch.bookkeeping [Tree.Insertion shape None None]
    (DiGraph.add_node 0
       {| DiGraph.local_reference := None;
          DiGraph.indeces_children := Some [];
          DiGraph.references_children := Some [] |} DiGraph.empty).
Proof.
  intros [|k] ins Hk; [|by destruct k]. injection Hk as <-.
  rewrite add_node_fresh by apply lookup_empty. simpl.
  change (Z.of_nat 0) with 0%Z. by rewrite !lookup_insert_eq.
Qed.

Lemma built_bookkeeping axes frame history self :
  Tree.built axes frame history self →
  Arch.bookkeeping history (BlockArchObstacle._graph self).
Proof.
  induction 1 as [shape|history self shape reference parent Hbuilt IH Hrange].
  - rewrite set_root_eq. apply bookkeeping_root.
  - pose proof (built_invariant _ _ _ _ Hbuilt) as Hinv.
    pose proof (Tree.inv_history _ _ _ _ Hinv) as Hearlier.
    rewrite (invariant_components _ _ _ _ Hinv) in Hrange.
    destruct (lookup_lt_is_Some_2 history (Z.to_nat parent)) as [pins Hpins];
      [lia|].
    destruct (IH _ _ Hpins) as [Hpnode Hpsucc].
    unfold Arch.attrs_of in Hpnode.
    rewrite !Z2Nat.id in Hpnode, Hpsucc by lia.
    rewrite (add_component_graph _ _ _ _ shape reference parent _ _
               Hinv Hrange Hpnode eq_refl).
    set (n := Z.of_nat (length history)).
    assert (parent ≠ n) as Hne by (unfold n; lia).
    intros k ins Hk. unfold Arch.attrs_of. rewrite children_of_snoc. simpl.
    apply lookup_snoc_Some in Hk as [[Hlt Hk]|[-> <-]].
    + destruct (IH _ _ Hk) as [Hnode Hsucc].
      destruct (decide (parent = Z.of_nat k)) as [->|Hpk].
      * rewrite decide_True by done.
        rewrite lookup_insert_eq, lookup_alter_eq, lookup_insert_ne, Hsucc
          by done.
        assert (pins = ins) as -> by (rewrite Nat2Z.id in Hpins; congruence).
        simpl. split; [done|]. f_equal. unfold DiGraph.adj_set.
        rewrite decide_False; [done|].
        intros (j & jins & Hj & Hjk & _)%elem_of_children_of.
        apply lookup_lt_Some in Hjk. unfold n in Hj. lia.
      * rewrite decide_False by congruence. rewrite !app_nil_r.
        rewrite lookup_insert_ne, lookup_insert_ne by (unfold n; lia).
        rewrite lookup_alter_ne, lookup_insert_ne by (unfold n; lia).
        done.
    + fold n. rewrite decide_False by congruence.
      rewrite lookup_insert_ne, lookup_insert_eq by done.
      rewrite lookup_alter_ne, lookup_insert_eq by done.
      rewrite children_of_none by (done || unfold n; lia). done.
Qed.

Abbreviation tree_get_gamma := (BlockArchObstacle.get_gamma obstacle_get_gamma).
Abbreviation get_parent_idx := (BlockArchObstacle.get_parent_idx breakpointhook).

Lemma built_parent axes frame history self k ins p :
  Tree.built axes frame history self →
  history !! k = Some ins →
  Tree.ins_parent ins = Some p →
  get_parent_idx self (Z.of_nat k) = ([], Ret (Some p)).
Proof.
  intros Hbuilt Hk Hp. pose proof (built_invariant _ _ _ _ Hbuilt) as Hinv.
  destruct (built_lookup _ _ _ _ _ _ Hbuilt Hk) as (_ & _ & Hpred).
  unfold BlockArchObstacle.get_parent_idx.
  rewrite (Tree.inv_root _ _ _ _ Hinv).
  pose proof (Tree.inv_history _ _ _ _ Hinv k ins Hk) as Hearlier.
  destruct k as [|k]; [congruence|].
  rewrite decide_False by lia. rewrite Hpred. unfold Tree.parent_list.
  by rewrite Hp.
Qed.

(** In a built tree the node of the k-th insertion keeps the reference
    position of that insertion, an empty [references_children], and as
    [indeces_children] the indices of the insertions that named k as
    their parent, in the order of insertion.  That list is the node's
    successor list, and its members are the nodes whose one parent is k,
    which [get_parent_idx] answers for each of them. *)
Theorem built_tree_bookkeeping axes frame history self k ins :
  Tree.built axes frame history self →
  history !! k = Some ins →
  let g := BlockArchObstacle._graph self in
  let children := Arch.children_of history (Z.of_nat k) in
  DiGraph.nodes_getitem (Z.of_nat k) g
  = Ret {| DiGraph.local_reference := Tree.ins_reference ins;
           DiGraph.indeces_children := Some children;
           DiGraph.references_children := Some [] |}
  ∧ DiGraph._succ g !! Z.of_nat k = Some children
  ∧ (∀ v, v ∈ children ↔ DiGraph.predecessors v g = Ret [Z.of_nat k])
  ∧ (∀ v, v ∈ children → get_parent_idx self v = ([], Ret (Some (Z.of_nat k)))).
Proof.
  intros Hbuilt Hk g children.
  destruct (built_bookkeeping _ _ _ _ Hbuilt k ins Hk) as [Hnode Hsucc].
  pose proof (built_invariant _ _ _ _ Hbuilt) as Hinv.
  pose proof (Tree.inv_graph _ _ _ _ Hinv) as Hgraph.
  unfold DiGraph.nodes_getitem. fold g in Hnode, Hsucc. rewrite Hnode.
  split; [done|]. split; [done|]. split.
  - intros v. subst children. rewrite elem_of_children_of. split.
    + intros (j & jins & -> & Hj & Hp).
      destruct (built_lookup _ _ _ _ _ _ Hbuilt Hj) as (_ & _ & Hpred).
      fold g in Hpred. rewrite Hpred. unfold Tree.parent_list. by rewrite Hp.
    + intros Hpred. unfold DiGraph.predecessors in Hpred.
      destruct (DiGraph._pred g !! v) as [ps|] eqn:Hv; [|done].
      injection Hpred as ->.
      assert (0 <= v < Z.of_nat (length history))%Z as Hrange.
      { apply (Tree.pred_dom _ _ Hgraph). by eexists. }
      destruct (lookup_lt_is_Some_2 history (Z.to_nat v)) as [jins Hj]; [lia|].
      pose proof (Tree.pred_parent _ _ Hgraph _ _ Hj) as Hp.
      rewrite Z2Nat.id in Hp by lia. fold g in Hp.
      exists (Z.to_nat v), jins. split; [lia|]. split; [done|].
      unfold Tree.parent_list in Hp.
      destruct (Tree.ins_parent jins); congruence.
  - intros v (j & jins & -> & Hj & Hp)%elem_of_children_of.
    by eapply built_parent.
Qed.

(** The constructor (and [create_arch_obstacle]) raises [IndexError] when
    [axes_length] has fewer than two entries.  Otherwise it returns a
    built tree of three members: the root and two legs whose parent is
    the root, and the children of the root are [1; 2]. *)
Theorem constructor_builds_the_arch wall_width axes frame :
  match axes with
  | axes0 :: axes1 :: rest =>
      ∃ self,
        create_arch_obstacle wall_width axes frame = Ret self
        ∧ Tree.built axes frame (Arch.insertions wall_width axes0 axes1 rest) self
        ∧ BlockArchObstacle.n_components self = 3%nat
        ∧ get_parent_idx self 0 = ([], Ret None)
        ∧ get_parent_idx self 1 = ([], Ret (Some 0%Z))
        ∧ get_parent_idx self 2 = ([], Ret (Some 0%Z))
        ∧ ∃ a, DiGraph.nodes_getitem 0 (BlockArchObstacle._graph self) = Ret a
               ∧ DiGraph.indeces_children a = Some [1%Z; 2%Z]
  | _ => create_arch_obstacle wall_width axes frame = Raise IndexError
  end.
Proof.
  unfold create_arch_obstacle, BlockArchObstacle.new, BlockArchObstacle.init.
  destruct axes as [|axes0 [|axes1 rest]];
    unfold BlockArchObstacle.mbind at 1, BlockArchObstacle.lift at 1;
    simpl; [done..|].
  unfold BlockArchObstacle.mbind, BlockArchObstacle.lift, BlockArchObstacle.reads.
  simpl.
  pose proof (Tree.built_root (axes0 :: axes1 :: rest) frame
                (Obstacle.Cuboid [wall_width; axes1]
                   (Pose_unrotated [0%Q; 0%Q]))) as Hroot.
  match goal with
  | |- context [BlockArchObstacle.add_component _ _ 0 ?tree] =>
      set (rooted := tree) in *
  end.
  change (Tree.built (axes0 :: axes1 :: rest) frame
            [Tree.Insertion (Obstacle.Cuboid [wall_width; axes1]
                               (Pose_unrotated [0%Q; 0%Q])) None None]
            rooted) in Hroot.
  clearbody rooted.
  match goal with
  | |- context [BlockArchObstacle.add_component ?shape ?ref 0 rooted] =>
      pose proof (Tree.built_add _ _ _ _ shape ref 0%Z Hroot) as Habove;
      destruct (add_component_invariant _ _ _ _ shape ref 0%Z
                  (built_invariant _ _ _ _ Hroot)) as [Hret _];
      [|destruct (BlockArchObstacle.add_component shape ref 0 rooted)
          as [[[]|e] above] eqn:Eabove; [|simpl in Hret; congruence]]
  end.
  { rewrite (invariant_components _ _ _ _ (built_invariant _ _ _ _ Hroot)). simpl. lia. }
  assert (0 <= 0 < Z.of_nat (BlockArchObstacle.n_components rooted))%Z as Hrange.
  { rewrite (invariant_components _ _ _ _ (built_invariant _ _ _ _ Hroot)). simpl. lia. }
  specialize (Habove Hrange). simpl in Habove.
  match goal with
  | |- context [BlockArchObstacle.add_component ?shape ?ref 0 above] =>
      pose proof (Tree.built_add _ _ _ _ shape ref 0%Z Habove) as Hbelow;
      destruct (add_component_invariant _ _ _ _ shape ref 0%Z
                  (built_invariant _ _ _ _ Habove)) as [Hret' _];
      [|destruct (BlockArchObstacle.add_component shape ref 0 above)
          as [[[]|e] below] eqn:Ebelow; [|simpl in Hret'; congruence]]
  end.
  { rewrite (invariant_components _ _ _ _ (built_invariant _ _ _ _ Habove)). simpl. lia. }
  assert (0 <= 0 < Z.of_nat (BlockArchObstacle.n_components above))%Z as Hrange'.
  { rewrite (invariant_components _ _ _ _ (built_invariant _ _ _ _ Habove)). simpl. lia. }
  specialize (Hbelow Hrange'). simpl in Hbelow.
  change (Tree.built (axes0 :: axes1 :: rest) frame
            (Arch.insertions wall_width axes0 axes1 rest) below) in Hbelow.
  exists below. split; [done|]. split; [done|].
  pose proof (built_invariant _ _ _ _ Hbelow) as Hinv.
  split; [by rewrite (invariant_components _ _ _ _ Hinv)|].
  split.
  { unfold BlockArchObstacle.get_parent_idx.
    by rewrite (Tree.inv_root _ _ _ _ Hinv), decide_True. }
  split; [exact (built_parent _ _ _ _ 1%nat _ 0%Z Hbelow eq_refl eq_refl)|].
  split; [exact (built_parent _ _ _ _ 2%nat _ 0%Z Hbelow eq_refl eq_refl)|].
  destruct (built_bookkeeping _ _ _ _ Hbelow 0%nat _ eq_refl) as [Hnode _].
  eexists. unfold DiGraph.nodes_getitem.
  change (Z.of_nat 0) with 0%Z in Hnode. rewrite Hnode. done.
Qed.



Lemma update_zip_twice frame frame' poses obstacles :
  BlockArchObstacle.update_zip frame poses
    (BlockArchObstacle.update_zip frame' poses obstacles)
  = BlockArchObstacle.update_zip frame poses obstacles.
Proof.
  revert obstacles. induction poses as [|local poses IH];
    intros [|obs obstacles]; simpl; try done.
  by rewrite IH.
Qed.


(** What [update_obstacles] leaves depends on the tree's pose at the call
    and not on the updates before: after two moves the tree is as after
    the second alone, and a repeated update changes nothing. *)
Theorem update_obstacles_last_pose_wins first second delta_time delta_time' self :
  BlockArchObstacle.update_obstacles delta_time'
    (BlockArchObstacle.set_pose second
       (snd (BlockArchObstacle.update_obstacles delta_time
               (BlockArchObstacle.set_pose first self))))
  = BlockArchObstacle.update_obstacles delta_time'
      (BlockArchObstacle.set_pose second self)
  ∧ BlockArchObstacle.update_obstacles delta_time'
      (snd (BlockArchObstacle.update_obstacles delta_time self))
    = BlockArchObstacle.update_obstacles delta_time self.
Proof.
  rewrite !update_obstacles_eq. simpl.
  unfold BlockArchObstacle.with_obstacle_list, BlockArchObstacle.set_pose. simpl.
  by rewrite !update_zip_twice.
Qed.

(** After a [set_root] on a built tree of [n] members the numbering is no
    longer dense: index [n] holds the new shape, but the graph has no
    node [n], and [get_parent_idx] for it ends in the debugger. *)
Theorem second_set_root_breaks_numbering axes frame history self shape :
  Tree.built axes frame history self →
  let self' := snd (BlockArchObstacle.set_root shape self) in
  let n := Z.of_nat (BlockArchObstacle.n_components self) in
  BlockArchObstacle.n_components self' = S (BlockArchObstacle.n_components self)
  ∧ BlockArchObstacle.get_component self' n
    = Ret (Tree.stored frame (Tree.Insertion shape None None))
  ∧ ¬ DiGraph.has_node n (BlockArchObstacle._graph self')
  ∧ get_parent_idx self' n
    = ([BlockArchObstacle.EnteredDebugger],
       obind breakpointhook (fun _ => Ret None)).
Proof.
  intros Hbuilt self' n. pose proof (built_invariant _ _ _ _ Hbuilt) as Hinv.
  pose proof (invariant_components _ _ _ _ Hinv) as Hn.
  pose proof (Tree.inv_graph _ _ _ _ Hinv) as Hgraph.
  assert (0 <= 0 < Z.of_nat (length history))%Z as Hzero.
  { pose proof (Tree.inv_nonempty _ _ _ _ Hinv). destruct history; [done|].
    simpl. lia. }
  destruct (add_node_again 0
              {| DiGraph.local_reference := None;
                 DiGraph.indeces_children := Some [];
                 DiGraph.references_children := Some [] |}
              _ (proj2 (Tree.succ_dom _ _ Hgraph 0%Z) Hzero))
    as (_ & Hpred & Hnodes & _).
  subst self'. rewrite set_root_eq. simpl.
  split.
  { unfold BlockArchObstacle.n_components. simpl. rewrite length_app. simpl. lia. }
  split.
  { unfold BlockArchObstacle.get_component. simpl.
    apply py_getitem_nonneg; [lia|]. subst n.
    rewrite Nat2Z.id, (Tree.inv_pose _ _ _ _ Hinv).
    by apply list_lookup_middle. }
  split.
  { rewrite Hnodes. intros Hnode%(Tree.node_dom _ _ Hgraph). lia. }
  unfold BlockArchObstacle.get_parent_idx, BlockArchObstacle.root_idx. simpl.
  pose proof (Tree.inv_root _ _ _ _ Hinv) as Hroot.
  unfold BlockArchObstacle.root_idx in Hroot. rewrite Hroot.
  rewrite decide_False by lia.
  unfold DiGraph.predecessors. rewrite Hpred.
  destruct (DiGraph._pred (BlockArchObstacle._graph self) !! n) eqn:E; [|done].
  exfalso. assert (0 <= n < Z.of_nat (length history))%Z; [|lia].
  apply (Tree.pred_dom _ _ Hgraph). by eexists.
Qed.
End TreeBookkeeping.

(** ** Trajectories *)

Section TrajectoryProperties.
Context {Vector : Type}.
Variable zero : Vector.
Variable add : Vector -> Vector -> Vector.
Variable scale : Vector -> Q -> Vector.
Variable velocity_functor : Vector -> Vector.
Variable zeros_limit : nat.
Variable too_big : Z -> exn.

Abbreviation integrate :=
  (Trajectory.integrate_trajectory zero add scale velocity_functor
     zeros_limit too_big).
Abbreviation euler := (Trajectory.euler add scale velocity_functor).
Abbreviation orbit := (Trajectory.orbit add scale velocity_functor).
Abbreviation turn := (Trajectory.turn add scale velocity_functor).
Abbreviation points := (Trajectory.points add scale velocity_functor).

Lemma orbit_points step_size n start :
  orbit step_size n start = points step_size start (S n).
Proof.
  revert start. induction n as [|n IH]; intros start; [done|].
  change (orbit step_size (S n) start)
    with (start :: orbit step_size n (euler step_size start)).
  rewrite IH. unfold Trajectory.points.
  change (seq 0 (S (S n))) with (0%nat :: seq 1 (S n)).
  rewrite <- seq_shift, (map_cons _ 0%nat), map_map. f_equal.
  apply map_ext. intros i. by rewrite Nat.iter_succ_r.
Qed.

Lemma orbit_length step_size n start : length (orbit step_size n start) = S n.
Proof.
  rewrite orbit_points. unfold Trajectory.points.
  by rewrite length_map, length_seq.
Qed.

Lemma points_length step_size start k :
  length (points step_size start k) = k.
Proof. unfold Trajectory.points. by rewrite length_map, length_seq. Qed.

Lemma points_succ step_size start k :
  points step_size start (S k)
  = points step_size start k ++ [Nat.iter k (euler step_size) start].
Proof. unfold Trajectory.points. by rewrite seq_S, map_app. Qed.

Lemma loop_invariant step_size start n k :
  (k <= n)%nat →
  fold_left (turn step_size) (seq 0 k)
    ([], Ret (start :: replicate n zero))
  = (points step_size start k,
     Ret (points step_size start (S k) ++ replicate (n - k) zero)).
Proof.
  induction k as [|k IH]; intros Hk.
  - simpl. by rewrite Nat.sub_0_r.
  - rewrite seq_S, fold_left_app, IH by lia. cbn [fold_left].
    change (0 + k)%nat with k.
    unfold Trajectory.turn.
    set (x := Nat.iter k (euler step_size) start).
    assert ((points step_size start (S k) ++ replicate (n - k) zero) !! k = Some x)
      as Hx.
    { rewrite points_succ, <- app_assoc.
      rewrite lookup_app_r by (rewrite points_length; lia).
      rewrite points_length, Nat.sub_diag. done. }
    unfold Trajectory.get_column. rewrite Hx. cbn [obind].
    rewrite <- points_succ. f_equal.
    unfold Trajectory.set_column.
    rewrite decide_True
      by (rewrite length_app, points_length, length_replicate; lia).
    f_equal.
    rewrite (points_succ _ _ (S k)), <- app_assoc.
    replace (n - k)%nat with (S (n - S k)) by lia. cbn [replicate].
    replace (S k) with (length (points step_size start (S k)) + 0)%nat at 1
      by (rewrite points_length; lia).
    rewrite insert_app_r. done.
Qed.

Lemma orbit_removelast step_size n start :
  removelast (orbit step_size n start) = points step_size start n.
Proof. by rewrite orbit_points, points_succ, removelast_last. Qed.

Lemma integrate_orbit start it_max step_size :
  (0 <= it_max)%Z →
  (it_max + 1 <= Z.of_nat zeros_limit)%Z →
  integrate start it_max step_size
  = (removelast (orbit step_size (Z.to_nat it_max) start),
     Ret (orbit step_size (Z.to_nat it_max) start)).
Proof.
  intros Hn Hlimit.
  unfold Trajectory.integrate_trajectory, Trajectory.np_zeros.
  destruct (Z.ltb_spec (it_max + 1) 0); [lia|].
  destruct (Z.ltb_spec (Z.of_nat zeros_limit) (it_max + 1)); [lia|].
  replace (Z.to_nat (it_max + 1)) with (S (Z.to_nat it_max)) by lia.
  cbn [replicate obind]. unfold Trajectory.set_column at 1.
  rewrite decide_True by (simpl; lia). cbn [insert list_insert].
  rewrite loop_invariant by lia. rewrite Nat.sub_diag. cbn [replicate].
  by rewrite app_nil_r, orbit_removelast, orbit_points.
Qed.

Lemma orbit_last step_size n start :
  last (orbit step_size n start) = Some (Nat.iter n (euler step_size) start).
Proof. by rewrite orbit_points, points_succ, last_snoc. Qed.

Lemma orbit_add step_size n m start :
  orbit step_size (n + m) start
  = orbit step_size n start
      ++ tail (orbit step_size m (Nat.iter n (euler step_size) start)).
Proof.
  revert start. induction n as [|n IH]; intros start.
  - by destruct m.
  - change (orbit step_size (S n + m) start)
      with (start :: orbit step_size (n + m) (euler step_size start)).
    by rewrite IH, Nat.iter_succ_r.
Qed.

Lemma map_seq_from {A} (f : nat → A) n m :
  map f (seq n m) = map (fun i => f (n + i)%nat) (seq 0 m).
Proof.
  induction m as [|m IH]; [done|].
  by rewrite !seq_S, !map_app, IH.
Qed.

Lemma points_add step_size n m start :
  points step_size start (n + m)
  = points step_size start n
      ++ points step_size (Nat.iter n (euler step_size) start) m.
Proof.
  unfold Trajectory.points. rewrite seq_app, map_app. f_equal.
  rewrite map_seq_from. apply map_ext. intros i.
  rewrite (Nat.add_comm (0 + n) i). apply Nat.iter_add.
Qed.

Lemma orbit_stationary step_size n start :
  euler step_size start = start →
  orbit step_size n start = replicate (S n) start.
Proof.
  intros Hfix. induction n as [|n IH]; [done|].
  change (orbit step_size (S n) start)
    with (start :: orbit step_size n (euler step_size start)).
  by rewrite Hfix, IH.
Qed.

(** When the matrix cannot be made or has no column for [start], the
    integration raises and the velocity functor has not been called:
    [ValueError] for [it_max < -1], [IndexError] for [it_max = -1], and
    what the array library raises when [it_max + 1] columns are more than
    it makes. *)
Theorem integrate_trajectory_refused start it_max step_size :
  (it_max < 0 ∨ Z.of_nat zeros_limit < it_max + 1)%Z →
  Trajectory.integrate_trajectory zero add scale velocity_functor
    zeros_limit too_big start it_max step_size
  = ([], Raise (if (it_max <? -1)%Z then ValueError
                else if (it_max =? -1)%Z then IndexError
                else too_big (it_max + 1)%Z)).
Proof.
  intros Hrefused.
  unfold Trajectory.integrate_trajectory, Trajectory.np_zeros.
  destruct (Z.ltb_spec it_max (-1)).
  { by destruct (Z.ltb_spec (it_max + 1) 0); [|lia]. }
  destruct (Z.ltb_spec (it_max + 1) 0); [lia|].
  destruct (Z.eqb_spec it_max (-1)) as [->|Hne].
  { by destruct (Z.ltb_spec (Z.of_nat zeros_limit) (-1 + 1)); [lia|]. }
  by destruct (Z.ltb_spec (Z.of_nat zeros_limit) (it_max + 1)); [|lia].
Qed.

(** For [it_max >= 0] within what the array library allocates, both
    integration functions return the explicit Euler iteration: [it_max + 1]
    columns, the first is [start], and each further one is its
    predecessor plus the velocity there times the step size.  The functor
    has been called once on every column but the last, in order. *)
Theorem integrate_trajectory_is_euler start it_max step_size :
  (0 <= it_max)%Z →
  (it_max + 1 <= Z.of_nat zeros_limit)%Z →
  let columns := Trajectory.orbit add scale velocity_functor step_size
                   (Z.to_nat it_max) start in
  Trajectory.integrate_trajectory zero add scale velocity_functor
    zeros_limit too_big start it_max step_size
  = (removelast columns, Ret columns)
  ∧ Trajectory.integrate_trajectory_with_differences zero add scale
      velocity_functor zeros_limit too_big start it_max step_size
    = (removelast columns, Ret columns)
  ∧ length columns = S (Z.to_nat it_max)
  ∧ head columns = Some start
  ∧ (∀ i x, (i < Z.to_nat it_max)%nat → columns !! i = Some x →
       columns !! S i = Some (add x (scale (velocity_functor x) step_size))).
Proof.
  intros Hn Hlimit columns. split; [by apply integrate_orbit|].
  split; [by apply integrate_orbit|]. split; [apply orbit_length|].
  split; [by destruct (Z.to_nat it_max)|].
  intros i x Hi. subst columns. rewrite orbit_points. unfold Trajectory.points.
  rewrite !list_lookup_fmap, !lookup_seq_lt by lia. simpl.
  by intros [= <-].
Qed.

(** A trajectory of [n + m] steps, when the array library makes its
    matrix, is the trajectory of [n] steps followed by the trajectory of
    [m] steps from its last point, that point taken once; and so are the
    calls of the functor. *)
Theorem integrate_trajectory_continues start n m step_size :
  (0 <= n)%Z → (0 <= m)%Z →
  (n + m + 1 <= Z.of_nat zeros_limit)%Z →
  ∃ columns calls turning columns' calls',
    Trajectory.integrate_trajectory zero add scale velocity_functor
      zeros_limit too_big start n step_size = (calls, Ret columns)
    ∧ last columns = Some turning
    ∧ Trajectory.integrate_trajectory zero add scale velocity_functor
        zeros_limit too_big turning m step_size = (calls', Ret columns')
    ∧ Trajectory.integrate_trajectory zero add scale velocity_functor
        zeros_limit too_big start (n + m) step_size
      = (calls ++ calls', Ret (columns ++ tail columns')).
Proof.
  intros Hn Hm Hlimit. eexists _, _, _, _, _.
  split; [apply integrate_orbit; lia|]. split; [apply orbit_last|].
  split; [apply integrate_orbit; lia|].
  rewrite integrate_orbit by lia.
  replace (Z.to_nat (n + m)) with (Z.to_nat n + Z.to_nat m)%nat by lia.
  by rewrite !orbit_removelast, points_add, orbit_add.
Qed.

(** When one step from [start] leads back to [start], every column of
    the trajectory is [start]. *)
Theorem integrate_trajectory_stationary start it_max step_size :
  add start (scale (velocity_functor start) step_size) = start →
  (0 <= it_max)%Z →
  (it_max + 1 <= Z.of_nat zeros_limit)%Z →
  Trajectory.integrate_trajectory zero add scale velocity_functor
    zeros_limit too_big start it_max step_size
  = (replicate (Z.to_nat it_max) start,
     Ret (replicate (S (Z.to_nat it_max)) start)).
Proof.
  intros Hfix Hn Hlimit. rewrite integrate_orbit by done.
  rewrite orbit_stationary by done. f_equal.
  change (replicate (S (Z.to_nat it_max)) start)
    with (start :: replicate (Z.to_nat it_max) start).
  rewrite replicate_cons_app. apply removelast_last.
Qed.
End TrajectoryProperties.

(** ** The further properties at concrete inputs *)

Section FurtherInstances.
Import Examples.
Local Open Scope Q_scope.

Abbreviation arch_gamma :=
  (fun tree position =>
     BlockArchObstacle.get_gamma GridPose.gamma tree position true).
Abbreviation one_arch :=
  (MultiObstacleContainer.append arch
     {| MultiObstacleContainer._obstacle_list := [] |}).

Lemma container_gamma_after_append_witness :
  ∃ m g,
    MultiObstacleContainer.get_gamma arch_gamma one_arch outside true = Ret m
    ∧ arch_gamma (arch_at moved) outside = Ret g
    ∧ MultiObstacleContainer.get_gamma arch_gamma two_arches outside true
      = Ret (if Qle_bool m g then m else g).
Proof.
  eexists _, _.
  assert (MultiObstacleContainer.get_gamma arch_gamma one_arch outside true
          = Ret (439 # 50)) as Hm by (vm_compute; reflexivity).
  assert (arch_gamma (arch_at moved) outside = Ret (219 # 50)) as Hg
    by (vm_compute; reflexivity).
  split; [exact Hm|]. split; [exact Hg|].
  apply (container_gamma_after_append arch_gamma one_arch (arch_at moved)
           outside _ _ Hm Hg).
Defined.

Lemma container_gamma_propagates_witness :
  let failing := {| MultiObstacleContainer._obstacle_list :=
                      [Ret 2; Raise KeyError; Ret 1] |} in
  Forall (fun tree => returns (canned_gamma tree outside) = true) [Ret 2]
  ∧ MultiObstacleContainer.get_gamma canned_gamma failing outside true
    = Raise KeyError.
Proof.
  intros failing.
  assert (Forall (fun tree => returns (canned_gamma tree outside) = true)
                 [Ret 2]) as Hbefore by (repeat constructor).
  split; [exact Hbefore|].
  exact (container_gamma_propagates canned_gamma failing outside
           [Ret 2] (Raise KeyError) [Ret 1] KeyError eq_refl Hbefore eq_refl).
Defined.

Lemma container_free_space_propagates_witness :
  let failing := {| MultiObstacleContainer._obstacle_list :=
                      [Ret true; Raise KeyError; Ret false] |} in
  Forall (fun tree => canned_answer tree outside = Ret true) [Ret true]
  ∧ MultiObstacleContainer.is_in_free_space canned_answer failing outside true
    = ([Ret true] ++ [Raise KeyError], Raise KeyError).
Proof.
  intros failing.
  assert (Forall (fun tree => canned_answer tree outside = Ret true)
                 [Ret true]) as Hbefore by (repeat constructor).
  split; [exact Hbefore|].
  exact (container_free_space_propagates canned_answer failing outside
           [Ret true] (Raise KeyError) [Ret false] KeyError
           eq_refl Hbefore eq_refl).
Defined.

Lemma container_of_arches_has_no_free_space_witness :
  (1 <= MultiObstacleContainer.len two_arches)%nat
  ∧ MultiObstacleContainer.is_in_free_space block_arch_is_in_free_space
      two_arches outside true
    = ([arch], Raise AttributeError).
Proof.
  assert (1 <= MultiObstacleContainer.len two_arches)%nat as Hlen
    by (vm_compute; lia).
  split; [exact Hlen|].
  destruct (container_of_arches_has_no_free_space two_arches outside Hlen)
    as (first & Hfirst & Hraise).
  injection Hfirst as <-. exact Hraise.
Defined.

Lemma built_tree_bookkeeping_witness :
  Tree.built [3; 5] origin arch_history arch
  ∧ DiGraph._succ (BlockArchObstacle._graph arch) !! 0%Z = Some [1%Z; 2%Z]
  ∧ BlockArchObstacle.get_parent_idx (Ret tt) arch 2 = ([], Ret (Some 0%Z)).
Proof.
  split; [apply arch_built|].
  destruct (built_tree_bookkeeping (Ret tt) _ _ _ _ 0%nat _ arch_built eq_refl)
    as (_ & Hsucc & _ & Hparent).
  split; [exact Hsucc|]. apply Hparent.
  apply elem_of_cons. right. apply elem_of_cons. by left.
Defined.


Lemma second_set_root_breaks_numbering_witness :
  Tree.built [3; 5] origin arch_history arch
  ∧ ¬ DiGraph.has_node 3
        (BlockArchObstacle._graph (snd (BlockArchObstacle.set_root block arch)))
  ∧ BlockArchObstacle.get_component
      (snd (BlockArchObstacle.set_root block arch)) 3
    = Ret (Tree.stored origin (Tree.Insertion block None None)).
Proof.
  split; [apply arch_built|].
  destruct (second_set_root_breaks_numbering (Ret tt) _ _ _ _ block arch_built)
    as (_ & Hmember & Hnode & _).
  rewrite arch_components in Hmember, Hnode.
  split; [exact Hnode|exact Hmember].
Defined.

Abbreviation drifting :=
  (Trajectory.integrate_trajectory [0; 0] GridPose.add scale drift
     1000 (fun _ => ValueError)).

Lemma integrate_trajectory_refused_witness :
  (-1 < 0 ∨ Z.of_nat 1000 < -1 + 1)%Z
  ∧ drifting [1; 2] (-1) (1 # 2) = ([], Raise IndexError)
  ∧ (1000 < 0 ∨ Z.of_nat 1000 < 1000 + 1)%Z
  ∧ drifting [1; 2] 1000 (1 # 2) = ([], Raise ValueError).
Proof.
  assert (-1 < 0 ∨ Z.of_nat 1000 < -1 + 1)%Z as Hempty by lia.
  assert (1000 < 0 ∨ Z.of_nat 1000 < 1000 + 1)%Z as Hlarge by lia.
  split; [exact Hempty|]. split.
  - exact (integrate_trajectory_refused [0; 0] GridPose.add scale drift
             1000 (fun _ => ValueError) [1; 2] (-1) (1 # 2) Hempty).
  - split; [exact Hlarge|].
    exact (integrate_trajectory_refused [0; 0] GridPose.add scale drift
             1000 (fun _ => ValueError) [1; 2] 1000 (1 # 2) Hlarge).
Defined.

Lemma integrate_trajectory_is_euler_witness :
  (0 <= 2)%Z ∧ (2 + 1 <= Z.of_nat 1000)%Z
  ∧ drifting [1; 2] 2 (1 # 2)
    = ([[1; 2]; [3 # 2; 2]], Ret [[1; 2]; [3 # 2; 2]; [2; 2]]).
Proof.
  assert (0 <= 2)%Z as Hpos by lia.
  assert (2 + 1 <= Z.of_nat 1000)%Z as Hlimit by lia.
  split; [exact Hpos|]. split; [exact Hlimit|].
  destruct (integrate_trajectory_is_euler [0; 0] GridPose.add scale drift
              1000 (fun _ => ValueError) [1; 2] 2 (1 # 2) Hpos Hlimit)
    as (Hrun & _).
  rewrite Hrun. vm_compute. reflexivity.
Defined.

Lemma integrate_trajectory_continues_witness :
  (0 <= 1)%Z ∧ (0 <= 2)%Z ∧ (1 + 2 + 1 <= Z.of_nat 1000)%Z
  ∧ ∃ columns calls turning columns' calls',
      drifting [1; 2] 1 (1 # 2) = (calls, Ret columns)
      ∧ last columns = Some turning
      ∧ drifting turning 2 (1 # 2) = (calls', Ret columns')
      ∧ drifting [1; 2] (1 + 2) (1 # 2)
        = (calls ++ calls', Ret (columns ++ tail columns')).
Proof.
  assert (0 <= 1)%Z as Hn by lia. assert (0 <= 2)%Z as Hm by lia.
  assert (1 + 2 + 1 <= Z.of_nat 1000)%Z as Hlimit by lia.
  split; [exact Hn|]. split; [exact Hm|]. split; [exact Hlimit|].
  exact (integrate_trajectory_continues [0; 0] GridPose.add scale drift
           1000 (fun _ => ValueError) [1; 2] 1 2 (1 # 2) Hn Hm Hlimit).
Defined.

Lemma integrate_trajectory_stationary_witness :
  GridPose.add [1; 2] (scale (rest [1; 2]) (1 # 2)) = [1; 2]
  ∧ (0 <= 3)%Z ∧ (3 + 1 <= Z.of_nat 1000)%Z
  ∧ Trajectory.integrate_trajectory [0; 0] GridPose.add scale rest
      1000 (fun _ => ValueError) [1; 2] 3 (1 # 2)
    = (replicate 3 [1; 2], Ret (replicate 4 [1; 2])).
Proof.
  assert (GridPose.add [1; 2] (scale (rest [1; 2]) (1 # 2)) = [1; 2]) as Hfix
    by (vm_compute; reflexivity).
  assert (0 <= 3)%Z as Hpos by lia.
  assert (3 + 1 <= Z.of_nat 1000)%Z as Hlimit by lia.
  split; [exact Hfix|]. split; [exact Hpos|]. split; [exact Hlimit|].
  exact (integrate_trajectory_stationary [0; 0] GridPose.add scale rest
           1000 (fun _ => ValueError) [1; 2] 3 (1 # 2) Hfix Hpos Hlimit).
Defined.

End FurtherInstances.

(** ** Insertion of shared shapes *)

Section SharedProperties.
Context {Pose : Type} `{!PoseLibrary Pose}.
Variable obstacle_get_gamma : Obstacle.t Pose -> Array -> Q.
Implicit Types h : Shared.heap Pose.
Implicit Types self : Shared.t Pose.

(** The state after [add_component]: the object handed over carries the
    reference position and its new pose, no other object is touched, and
    the lists have grown by one entry. *)
Lemma shared_add_component_state h self obstacle reference parent :
  let after := snd (Shared.add_component obstacle reference parent (h, self)) in
  (∀ r, fst after r
        = if decide (r = obstacle)
          then Tree.stored (Shared.pose self)
                 (Tree.Insertion (h obstacle) (Some reference) (Some parent))
          else h r)
  ∧ Shared._obstacle_list (snd after) = Shared._obstacle_list self ++ [obstacle]
  ∧ Shared._local_poses (snd after)
    = Shared._local_poses self ++ [Obstacle.pose (h obstacle)]
  ∧ Shared.pose (snd after) = Shared.pose self.
Proof.
  unfold Shared.add_component. rewrite py_getitem_last.
  assert (Obstacle.pose
            (Shared.assign obstacle (Obstacle.set_reference_point reference) h
               obstacle) = Obstacle.pose (h obstacle)) as Hpose.
  { unfold Shared.assign. by rewrite decide_True. }
  destruct (DiGraph.append_child _ _ _); simpl; rewrite Hpose;
    (split; [|done]); intros r; unfold Shared.assign;
    by destruct (decide (r = obstacle)) as [->|].
Qed.

Lemma shared_get_component h self (i : nat) r :
  Shared._obstacle_list self !! i = Some r →
  Shared.get_component (h, self) (Z.of_nat i) = Ret (h r).
Proof.
  intros Hr. unfold Shared.get_component.
  rewrite (py_getitem_nonneg _ _ r) by (lia || by rewrite Nat2Z.id). done.
Qed.

(** After [add_component], whatever its outcome, the tree has one member
    more, and the index [n] (the count before) and the index -1 yield
    the object handed over, with the reference position and posed at the
    tree's pose composed with the pose it had.  The members are objects:
    an index that held another object yields it unchanged, and an index
    that held the object handed over yields it as it is now, moved. *)
Theorem shared_add_component_members h self obstacle reference parent :
  let after := snd (Shared.add_component obstacle reference parent (h, self)) in
  let n := length (Shared._obstacle_list self) in
  let member := Tree.stored (Shared.pose self)
                  (Tree.Insertion (h obstacle) (Some reference) (Some parent)) in
  length (Shared._obstacle_list (snd after)) = S n
  ∧ Shared.get_component after (Z.of_nat n) = Ret member
  ∧ Shared.get_component after (-1) = Ret member
  ∧ Obstacle.pose member
    = transform_pose_from_relative (Shared.pose self)
        (Obstacle.pose (h obstacle))
  ∧ Obstacle.reference_point member = Some reference
  ∧ (∀ i r, Shared._obstacle_list self !! i = Some r →
       Shared.get_component after (Z.of_nat i)
       = Ret (if decide (r = obstacle) then member else h r)).
Proof.
  intros after n member.
  destruct (shared_add_component_state h self obstacle reference parent)
    as (Hheap & Hlist & _ & _).
  fold after in Hheap, Hlist. fold member in Hheap.
  destruct after as [h' self']. simpl in Hheap, Hlist.
  split; [simpl; rewrite Hlist, length_app; simpl; lia|].
  split.
  { rewrite (shared_get_component _ _ _ obstacle), Hheap, decide_True; [done..|].
    rewrite Hlist. by apply list_lookup_middle. }
  split.
  { unfold Shared.get_component. rewrite Hlist, py_getitem_last. simpl.
    by rewrite Hheap, decide_True. }
  split; [reflexivity|]. split; [reflexivity|].
  intros i r Hr.
  rewrite (shared_get_component _ _ _ r), Hheap; [done|].
  rewrite Hlist. by apply lookup_app_l_Some.
Qed.

(** When the object handed over is not a member yet and the gamma of the
    tree at a position is [m], after [add_component], whatever its
    outcome, the gamma there is the smaller of [m] and the gamma of the
    new member: the insertion of a new object never raises it. *)
Theorem shared_gamma_after_add_component h self obstacle reference parent
    position m :
  obstacle ∉ Shared._obstacle_list self →
  Shared.get_gamma obstacle_get_gamma (h, self) position true = Ret m →
  let after := snd (Shared.add_component obstacle reference parent (h, self)) in
  let g := obstacle_get_gamma
             (Tree.stored (Shared.pose self)
                (Tree.Insertion (h obstacle) (Some reference) (Some parent)))
             position in
  Shared.get_gamma obstacle_get_gamma after position true
  = Ret (if Qle_bool m g then m else g)
  ∧ ((if Qle_bool m g then m else g) <= m)%Q.
Proof.
  intros Hfresh Hm after g.
  destruct (shared_add_component_state h self obstacle reference parent)
    as (Hheap & Hlist & _ & _).
  fold after in Hheap, Hlist.
  destruct after as [h' self']. simpl in Hheap, Hlist.
  unfold Shared.get_gamma in *. simpl in *.
  rewrite Hlist, map_app. simpl. rewrite (Hheap obstacle), decide_True by done.
  split; [|apply Qle_bool_min_le]. apply py_min_snoc.
  rewrite <- Hm. f_equal. apply map_ext_in. intros r Hr.
  rewrite Hheap, decide_False; [done|].
  intros ->. apply Hfresh. by apply list_elem_of_In.
Qed.
End SharedProperties.

Section SharedInstances.
Import Examples.
Local Open Scope Q_scope.

Lemma shared_add_component_members_witness :
  let after := snd (Shared.add_component 1 [0; 0] 0
                      (SharedExamples.objects, SharedExamples.arch)) in
  Shared._obstacle_list SharedExamples.arch !! 1%nat = Some 1%nat
  ∧ Shared._obstacle_list SharedExamples.arch !! 0%nat = Some 0%nat
  ∧ Shared.get_component after 1 = Shared.get_component after 3
  ∧ Shared.get_component after 0
    = Shared.get_component (SharedExamples.objects, SharedExamples.arch) 0.
Proof.
  intros after. subst after.
  destruct (shared_add_component_members SharedExamples.objects
              SharedExamples.arch 1%nat [0; 0] 0%Z)
    as (_ & Hnew & _ & _ & _ & Hold).
  pose proof (Hold 1%nat 1%nat eq_refl) as Hmoved.
  pose proof (Hold 0%nat 0%nat eq_refl) as Hkept.
  change (Z.of_nat 1) with 1%Z in Hmoved.
  change (Z.of_nat 0) with 0%Z in Hkept.
  change (Z.of_nat (length (Shared._obstacle_list SharedExamples.arch)))
    with 3%Z in Hnew.
  split; [reflexivity|]. split; [reflexivity|]. split.
  - rewrite Hmoved, Hnew. reflexivity.
  - rewrite Hkept. reflexivity.
Defined.

Lemma shared_gamma_after_add_component_witness :
  (3%nat ∉ Shared._obstacle_list SharedExamples.arch)
  ∧ ∃ m m',
      Shared.get_gamma GridPose.gamma
        (SharedExamples.objects, SharedExamples.arch) outside true = Ret m
      ∧ Shared.get_gamma GridPose.gamma
          (snd (Shared.add_component 3 [0; 0] 0
                  (SharedExamples.objects, SharedExamples.arch)))
          outside true = Ret m'
      ∧ (m' <= m)%Q.
Proof.
  assert (3%nat ∉ Shared._obstacle_list SharedExamples.arch) as Hfresh.
  { intros Hin. apply list_elem_of_In in Hin. simpl in Hin.
    repeat destruct Hin as [Hin|Hin]; try discriminate. done. }
  assert (Shared.get_gamma GridPose.gamma
            (SharedExamples.objects, SharedExamples.arch) outside true
          = Ret (439 # 50)) as Hm by (vm_compute; reflexivity).
  split; [exact Hfresh|]. eexists _, _. split; [exact Hm|].
  exact (shared_gamma_after_add_component GridPose.gamma
           SharedExamples.objects SharedExamples.arch 3%nat [0; 0] 0%Z
           outside _ Hfresh Hm).
Defined.

(** The same shape handed over twice: the member at the earlier index
    moves with it, and the gamma at the place it has left rises. *)
Lemma shared_reinsertion_raises_gamma :
  let first := snd (Shared.add_component 3 [0; 0] 0
                      (SharedExamples.objects, Shared.mk moved
                         (Shared._graph SharedExamples.arch)
                         (Shared._local_poses SharedExamples.arch)
                         [0; 1; 2]%nat)) in
  let second := snd (Shared.add_component 3 [0; 0] 0 first) in
  Shared.get_gamma GridPose.gamma first [3; 2] true = Ret 1
  ∧ Shared.get_gamma GridPose.gamma second [3; 2] true = Ret 2.
Proof. vm_compute. split; reflexivity. Qed.
End SharedInstances.
